(** * L4 VIRTIO transport: a shallow embedding of [include/virtio.h]

    The development follows the header top-down: the C enumerations
    (protocol number, opcodes, device ids, status bits), the two shared
    structures and their byte layout, the two inline accessors, and then the
    control-plane and ring operations whose bodies are not part of the header
    and are modelled from the written specification. *)

From Stdlib Require Import ZArith Lia Bool String.
From stdpp Require Import base option list.

Local Open Scope Z_scope.

(** ** C enumerations

    An [enum] declaration is a list of enumerators in declaration order, each
    with an optional explicit initialiser.  C numbers them left to right: an
    initialised enumerator takes its initialiser, any other takes the value
    of its predecessor plus one, and the first one defaults to zero. *)

Module CEnum.
Section Numbering.
Context {E : Type} `{EqDecision E}.

Definition decl := list (E * option Z).

Fixpoint number (next : Z) (d : decl) : list (E * Z) :=
  match d with
  | [] => []
  | (e, Some v) :: rest => (e, v) :: number (v + 1) rest
  | (e, None) :: rest => (e, next) :: number (next + 1) rest
  end.

Definition values (d : decl) : list (E * Z) := number 0 d.

Fixpoint assoc_value (l : list (E * Z)) (e : E) : option Z :=
  match l with
  | [] => None
  | (e', v) :: rest => if decide (e' = e) then Some v else assoc_value rest e
  end.

Fixpoint assoc_name (l : list (E * Z)) (v : Z) : option E :=
  match l with
  | [] => None
  | (e, v') :: rest => if Z.eqb v' v then Some e else assoc_name rest v
  end.

(** The integer value of an enumerator (0 for a name the declaration does
    not list, which no caller below passes). *)
Definition value (d : decl) (e : E) : Z := default 0 (assoc_value (values d) e).

(** The enumerator a wire value denotes, if any. *)
Definition decode (d : decl) (v : Z) : option E := assoc_name (values d) v.
End Numbering.
End CEnum.

(** *** [enum L4_virtio_protocol] *)

Inductive L4_virtio_protocol := L4VIRTIO_PROTOCOL.

#[global] Instance L4_virtio_protocol_eq_dec : EqDecision L4_virtio_protocol.
Proof. solve_decision. Defined.

Definition L4_virtio_protocol_decl : CEnum.decl :=
  [ (L4VIRTIO_PROTOCOL, Some 0) ].

(** *** [enum L4_virtio_opcodes] *)

Inductive L4_virtio_opcodes :=
| L4VIRTIO_OP_SET_STATUS
| L4VIRTIO_OP_CONFIG_QUEUE
| L4VIRTIO_OP_REGISTER_IFACE
| L4VIRTIO_OP_REGISTER_DS.

#[global] Instance L4_virtio_opcodes_eq_dec : EqDecision L4_virtio_opcodes.
Proof. solve_decision. Defined.

Definition L4_virtio_opcodes_decl : CEnum.decl :=
  [ (L4VIRTIO_OP_SET_STATUS, Some 0);
    (L4VIRTIO_OP_CONFIG_QUEUE, None);
    (L4VIRTIO_OP_REGISTER_IFACE, None);
    (L4VIRTIO_OP_REGISTER_DS, None) ].

Definition opcode_value : L4_virtio_opcodes -> Z := CEnum.value L4_virtio_opcodes_decl.
Definition opcode_decode : Z -> option L4_virtio_opcodes := CEnum.decode L4_virtio_opcodes_decl.

(** *** [enum L4virtio_device_ids] *)

Inductive L4virtio_device_ids :=
| L4VIRTIO_ID_NET
| L4VIRTIO_ID_BLOCK
| L4VIRTIO_ID_CONSOLE
| L4VIRTIO_ID_RNG
| L4VIRTIO_ID_BALLOON
| L4VIRTIO_ID_RPMSG
| L4VIRTIO_ID_SCSI
| L4VIRTIO_ID_9P
| L4VIRTIO_ID_RPROC_SERIAL
| L4VIRTIO_ID_CAIF
| L4VIRTIO_ID_SOCK.

#[global] Instance L4virtio_device_ids_eq_dec : EqDecision L4virtio_device_ids.
Proof. solve_decision. Defined.

Definition L4virtio_device_ids_decl : CEnum.decl :=
  [ (L4VIRTIO_ID_NET, Some 1);
    (L4VIRTIO_ID_BLOCK, Some 2);
    (L4VIRTIO_ID_CONSOLE, Some 3);
    (L4VIRTIO_ID_RNG, Some 4);
    (L4VIRTIO_ID_BALLOON, Some 5);
    (L4VIRTIO_ID_RPMSG, Some 7);
    (L4VIRTIO_ID_SCSI, Some 8);
    (L4VIRTIO_ID_9P, Some 9);
    (L4VIRTIO_ID_RPROC_SERIAL, Some 11);
    (L4VIRTIO_ID_CAIF, Some 12);
    (L4VIRTIO_ID_SOCK, Some 0x9999) ].

Definition device_id_value : L4virtio_device_ids -> Z := CEnum.value L4virtio_device_ids_decl.
Definition device_id_decode : Z -> option L4virtio_device_ids := CEnum.decode L4virtio_device_ids_decl.

(** *** [enum L4virtio_device_status] *)

Inductive L4virtio_device_status :=
| L4VIRTIO_STATUS_ACKNOWLEDGE
| L4VIRTIO_STATUS_DRIVER
| L4VIRTIO_STATUS_DRIVER_OK
| L4VIRTIO_STATUS_FEATURES_OK
| L4VIRTIO_STATUS_FAILED.

#[global] Instance L4virtio_device_status_eq_dec : EqDecision L4virtio_device_status.
Proof. solve_decision. Defined.

Definition L4virtio_device_status_decl : CEnum.decl :=
  [ (L4VIRTIO_STATUS_ACKNOWLEDGE, Some 1);
    (L4VIRTIO_STATUS_DRIVER, Some 2);
    (L4VIRTIO_STATUS_DRIVER_OK, Some 4);
    (L4VIRTIO_STATUS_FEATURES_OK, Some 8);
    (L4VIRTIO_STATUS_FAILED, Some 0x80) ].

Definition status_bit : L4virtio_device_status -> Z := CEnum.value L4virtio_device_status_decl.

(** The order in which a driver raises the bits during bring-up
    (FEATURES_OK is negotiated before the driver declares itself ready). *)
Definition lifecycle_order : list L4virtio_device_status :=
  [ L4VIRTIO_STATUS_ACKNOWLEDGE; L4VIRTIO_STATUS_DRIVER;
    L4VIRTIO_STATUS_FEATURES_OK; L4VIRTIO_STATUS_DRIVER_OK ].

(** *** [enum L4_virtio_irq_status] *)

Inductive L4_virtio_irq_status :=
| L4VIRTIO_IRQ_STATUS_VRING
| L4VIRTIO_IRQ_STATUS_CONFIG.

#[global] Instance L4_virtio_irq_status_eq_dec : EqDecision L4_virtio_irq_status.
Proof. solve_decision. Defined.

Definition L4_virtio_irq_status_decl : CEnum.decl :=
  [ (L4VIRTIO_IRQ_STATUS_VRING, Some 1);
    (L4VIRTIO_IRQ_STATUS_CONFIG, Some 2) ].

(** ** Structure layout

    The fixed-width integer types of [l4/sys/types.h] and arrays of them are
    the only member types the two transport structures use.  A structure is
    laid out the way C does it: every member is placed at the next offset
    that is a multiple of its alignment, and the structure is padded at its
    end to a multiple of its strictest member alignment. *)

Module Layout.

Inductive ctype :=
| l4_uint8_t
| l4_uint16_t
| l4_uint32_t
| l4_uint64_t
| array (elem : ctype) (len : Z).

(** What a target ABI may choose: the alignment of each integer type. *)
Record abi := {
  alignof_u8 : Z;
  alignof_u16 : Z;
  alignof_u32 : Z;
  alignof_u64 : Z
}.

(** Every member aligned to its own size (all ABIs L4Re runs on). *)
Definition natural_abi : abi :=
  {| alignof_u8 := 1; alignof_u16 := 2; alignof_u32 := 4; alignof_u64 := 8 |}.

(** An ABI is admissible when each alignment is a power of two that does
    not exceed the size of the type. *)
Definition abi_ok (a : abi) : Prop :=
  alignof_u8 a = 1 /\
  (alignof_u16 a = 1 \/ alignof_u16 a = 2) /\
  (alignof_u32 a = 1 \/ alignof_u32 a = 2 \/ alignof_u32 a = 4) /\
  (alignof_u64 a = 1 \/ alignof_u64 a = 2 \/ alignof_u64 a = 4 \/ alignof_u64 a = 8).

Fixpoint sizeof (t : ctype) : Z :=
  match t with
  | l4_uint8_t => 1
  | l4_uint16_t => 2
  | l4_uint32_t => 4
  | l4_uint64_t => 8
  | array elem len => len * sizeof elem
  end.

Fixpoint alignof (a : abi) (t : ctype) : Z :=
  match t with
  | l4_uint8_t => alignof_u8 a
  | l4_uint16_t => alignof_u16 a
  | l4_uint32_t => alignof_u32 a
  | l4_uint64_t => alignof_u64 a
  | array elem _ => alignof a elem
  end.

Definition align_up (off al : Z) : Z := ((off + al - 1) / al) * al.

Definition struct_decl := list (string * ctype).

(** A placed member: name, byte offset, byte size. *)
Record member := { m_name : string; m_offset : Z; m_size : Z }.

Fixpoint place (a : abi) (off : Z) (s : struct_decl) : list member :=
  match s with
  | [] => []
  | (name, t) :: rest =>
      let o := align_up off (alignof a t) in
      {| m_name := name; m_offset := o; m_size := sizeof t |}
        :: place a (o + sizeof t) rest
  end.

Definition members (a : abi) (s : struct_decl) : list member := place a 0 s.

Definition struct_align (a : abi) (s : struct_decl) : Z :=
  fold_right (fun f acc => Z.max (alignof a (snd f)) acc) 1 s.

Definition end_of (ms : list member) : Z :=
  fold_left (fun _ m => m_offset m + m_size m) ms 0.

Definition struct_size (a : abi) (s : struct_decl) : Z :=
  align_up (end_of (members a s)) (struct_align a s).

Fixpoint find_member (ms : list member) (name : string) : option member :=
  match ms with
  | [] => None
  | m :: rest => if String.eqb (m_name m) name then Some m else find_member rest name
  end.

Definition offsetof (a : abi) (s : struct_decl) (name : string) : option Z :=
  m_offset <$> find_member (members a s) name.

(** Members in declaration order as (offset, size) pairs. *)
Definition extents (a : abi) (s : struct_decl) : list (string * Z * Z) :=
  map (fun m => (m_name m, m_offset m, m_size m)) (members a s).

End Layout.

(** *** [struct l4virtio_config_hdr_t] *)

Definition l4virtio_config_hdr_t_decl : Layout.struct_decl :=
  [ ("magic"%string, Layout.l4_uint32_t);
    ("version"%string, Layout.l4_uint32_t);
    ("device"%string, Layout.l4_uint32_t);
    ("vendor"%string, Layout.l4_uint32_t);
    ("num_queues"%string, Layout.l4_uint32_t);
    ("queues_offset"%string, Layout.l4_uint32_t);
    ("dev_cfg_offset"%string, Layout.l4_uint32_t);
    ("generation"%string, Layout.l4_uint32_t);
    ("status"%string, Layout.l4_uint32_t);
    ("irq_status"%string, Layout.l4_uint32_t);
    ("host_features"%string, Layout.array Layout.l4_uint32_t 8);
    ("guest_features"%string, Layout.array Layout.l4_uint32_t 8);
    ("guest_page_size"%string, Layout.l4_uint32_t) ].

(** The header as a value: each [l4_uint32_t] member is a [Z] in
    [0, 2^32), the feature bitmaps are lists of eight such words. *)
Record l4virtio_config_hdr_t := {
  magic : Z;
  version : Z;
  device : Z;
  vendor : Z;
  num_queues : Z;
  queues_offset : Z;
  dev_cfg_offset : Z;
  generation : Z;
  status : Z;
  irq_status : Z;
  host_features : list Z;
  guest_features : list Z;
  guest_page_size : Z
}.

Definition is_u16 (x : Z) : Prop := 0 <= x < 2 ^ 16.
Definition is_u32 (x : Z) : Prop := 0 <= x < 2 ^ 32.

Definition hdr_wf (h : l4virtio_config_hdr_t) : Prop :=
  is_u32 (magic h) /\ is_u32 (version h) /\ is_u32 (device h) /\
  is_u32 (vendor h) /\ is_u32 (num_queues h) /\ is_u32 (queues_offset h) /\
  is_u32 (dev_cfg_offset h) /\ is_u32 (generation h) /\ is_u32 (status h) /\
  is_u32 (irq_status h) /\
  length (host_features h) = 8%nat /\ Forall is_u32 (host_features h) /\
  length (guest_features h) = 8%nat /\ Forall is_u32 (guest_features h) /\
  is_u32 (guest_page_size h).

Definition set_hdr_status (h : l4virtio_config_hdr_t) (s : Z) : l4virtio_config_hdr_t :=
  {| magic := magic h; version := version h; device := device h;
     vendor := vendor h; num_queues := num_queues h;
     queues_offset := queues_offset h; dev_cfg_offset := dev_cfg_offset h;
     generation := generation h; status := s; irq_status := irq_status h;
     host_features := host_features h; guest_features := guest_features h;
     guest_page_size := guest_page_size h |}.

(** *** [struct l4virtio_config_queue_t] *)

Definition l4virtio_config_queue_t_decl : Layout.struct_decl :=
  [ ("num_max"%string, Layout.l4_uint16_t);
    ("num"%string, Layout.l4_uint16_t);
    ("align"%string, Layout.l4_uint32_t);
    ("pfn"%string, Layout.l4_uint32_t) ].

Record l4virtio_config_queue_t := {
  num_max : Z;
  num : Z;
  align : Z;
  pfn : Z
}.

Definition queue_cfg_wf (q : l4virtio_config_queue_t) : Prop :=
  is_u16 (num_max q) /\ is_u16 (num q) /\ is_u32 (align q) /\ is_u32 (pfn q).

(** ** Inline accessors

    [l4_addr_t] is the machine word of the target; its width [addr_bits] is
    fixed by [l4/sys/l4int.h], outside this header, and is a parameter here.
    The accessors take the address of the header and the header's contents,
    and add the stored offset in [l4_addr_t] arithmetic.  They read nothing
    else: no region size is passed in or consulted. *)

Section Accessors.
Variable addr_bits : Z.

Definition l4_addr_add (a b : Z) : Z := (a + b) mod 2 ^ addr_bits.

Definition l4virtio_config_queues (cfg_addr : Z) (cfg : l4virtio_config_hdr_t) : Z :=
  l4_addr_add cfg_addr (queues_offset cfg).

Definition l4virtio_device_config (cfg_addr : Z) (cfg : l4virtio_config_hdr_t) : Z :=
  l4_addr_add cfg_addr (dev_cfg_offset cfg).
End Accessors.

(** The byte range [addr, addr + size) lies inside the region of
    [region_size] bytes starting at [base]. *)
Definition in_region (base region_size addr size : Z) : Prop :=
  base <= addr /\ addr + size <= base + region_size.

(** ** Control-plane calls

    The header only declares [l4virtio_set_status], [l4virtio_config_queue],
    [l4virtio_register_ds] and [l4virtio_register_iface]; their bodies live
    in the device backend.  The definitions of this part are therefore
    written from the specification text and from the doc comments of the
    declarations. *)

(** Modelled from the spec: the error vocabulary of the control-plane calls
    (section 7: out-of-range index, invalid or rejected configuration,
    generic invalid argument).  The doc comment of [l4virtio_config_queue]
    names the codes [-L4_ERANGE], [-L4_EIO] and [-L4_EINVAL]; the numbers
    behind these names are those of [l4/sys/err.h] of L4Re. *)
Module L4_err.
Definition L4_EOK : Z := 0.
Definition L4_EIO : Z := 5.
Definition L4_EINVAL : Z := 22.
Definition L4_ERANGE : Z := 34.

Inductive error_kind :=
| OutOfRange          (**r the queue index exceeds the number of queues *)
| IoConfiguration     (**r the queue's configuration is rejected *)
| InvalidArgument.    (**r anything else *)

Definition code (k : error_kind) : Z :=
  match k with
  | OutOfRange => - L4_ERANGE
  | IoConfiguration => - L4_EIO
  | InvalidArgument => - L4_EINVAL
  end.

(** The result of a call as the [int] it returns. *)
Definition to_int (r : option error_kind) : Z :=
  match r with
  | None => L4_EOK
  | Some k => code k
  end.
End L4_err.

(** Bit-set view of a status or rights word. *)
Definition bits_subset (a b : Z) : bool := Z.land a b =? a.
Definition has_bit (w : Z) (b : L4virtio_device_status) : bool :=
  negb (Z.land w (status_bit b) =? 0).

(** A window of a data space bound into guest-physical memory. *)
Record region := {
  r_base : Z;     (**r guest-physical start address *)
  r_offset : Z;   (**r offset inside the data space *)
  r_size : Z;     (**r size of the window *)
  r_rights : Z    (**r rights the device holds on it *)
}.

(** A queue the backend has mapped: its index and the byte range of its
    rings in guest-physical memory. *)
Record queue_map := {
  qm_index : Z;
  qm_start : Z;
  qm_size : Z
}.

(** Modelled from the spec: the device side of one transport instance
    (sections 3 and 4): the shared config header and queue-config array, the
    regions registered so far, the queues the backend has mapped, the
    requests it is working on, and whether it processes queues at all. *)
Record vdevice := {
  dev_cfg : l4virtio_config_hdr_t;
  dev_queue_cfg : list l4virtio_config_queue_t;
  dev_regions : list region;
  dev_queue_maps : list queue_map;
  dev_in_flight : list Z;
  dev_processing : bool;
  dev_min_rights : Z    (**r rights the backend needs on every region *)
}.

Definition dev_status (d : vdevice) : Z := status (dev_cfg d).

(** *** set status (section 4.2) *)

(** Modelled from the spec: what a write of exactly 0 does.  In-flight
    processing is aborted, the backend-side queue mappings are released and
    no configuration is assumed any more. *)
Definition reset_device (d : vdevice) : vdevice :=
  {| dev_cfg := set_hdr_status (dev_cfg d) 0;
     dev_queue_cfg := dev_queue_cfg d;
     dev_regions := [];
     dev_queue_maps := [];
     dev_in_flight := [];
     dev_processing := false;
     dev_min_rights := dev_min_rights d |}.

(** Modelled from the spec: an accepted write of a non-zero status word.
    The device processes queues from DRIVER_OK on and never once FAILED is
    set. *)
Definition apply_status (d : vdevice) (new : Z) : vdevice :=
  let run := has_bit new L4VIRTIO_STATUS_DRIVER_OK
             && negb (has_bit new L4VIRTIO_STATUS_FAILED) in
  {| dev_cfg := set_hdr_status (dev_cfg d) new;
     dev_queue_cfg := dev_queue_cfg d;
     dev_regions := dev_regions d;
     dev_queue_maps := dev_queue_maps d;
     dev_in_flight := if run then dev_in_flight d else [];
     dev_processing := run;
     dev_min_rights := dev_min_rights d |}.

(** Modelled from the spec: [l4virtio_set_status], declared in the header
    without a body.  The argument is the status word to write.  FAILED is
    absorbing: once it is set only words that keep every bit are taken.
    Otherwise a word of exactly 0 resets, a word that keeps all current bits
    is applied, and any other word is rejected and changes nothing.  The
    relative order of FEATURES_OK and DRIVER_OK is left to the implementer
    by the specification (section 9) and is not constrained here. *)
Definition l4virtio_set_status (d : vdevice) (new : Z) : Z * vdevice :=
  let cur := dev_status d in
  if has_bit cur L4VIRTIO_STATUS_FAILED then
    if bits_subset cur new then (L4_err.L4_EOK, apply_status d new)
    else (L4_err.code L4_err.InvalidArgument, d)
  else if new =? 0 then (L4_err.L4_EOK, reset_device d)
  else if bits_subset cur new then (L4_err.L4_EOK, apply_status d new)
  else (L4_err.code L4_err.InvalidArgument, d).

(** A device on which FAILED is set and all queue processing has stopped. *)
Definition failed_quiet (d : vdevice) : Prop :=
  has_bit (dev_status d) L4VIRTIO_STATUS_FAILED = true /\
  dev_processing d = false.

(** A driver issuing a sequence of status writes; the return codes are
    collected in call order. *)
Fixpoint l4virtio_set_status_seq (d : vdevice) (ws : list Z) : list Z * vdevice :=
  match ws with
  | [] => ([], d)
  | w :: rest =>
      let '(rc, d1) := l4virtio_set_status d w in
      let '(rcs, d2) := l4virtio_set_status_seq d1 rest in
      (rc :: rcs, d2)
  end.

(** A sequence of status words in which every word keeps the bits of the
    one before it, starting from the bits in [cur]. *)
Fixpoint monotonic_from (cur : Z) (ws : list Z) : Prop :=
  match ws with
  | [] => True
  | w :: rest => bits_subset cur w = true /\ monotonic_from w rest
  end.

(** The status words a driver writes during bring-up: a reset, then each
    lifecycle bit or-ed to the word written before. *)
Fixpoint accumulate (cur : Z) (bits : list L4virtio_device_status) : list Z :=
  match bits with
  | [] => []
  | b :: rest => let w := Z.lor cur (status_bit b) in w :: accumulate w rest
  end.

Definition lifecycle_words : list Z := 0 :: accumulate 0 lifecycle_order.

(** *** register data space (section 4.5) *)

(** The doc comment of [l4virtio_register_ds]: the lower 8 bits of [ds_cap]
    are the rights mask; the remaining bits select the capability. *)
Definition ds_rights_mask (ds_cap : Z) : Z := Z.land ds_cap 0xFF.
Definition ds_selector (ds_cap : Z) : Z := Z.shiftr ds_cap 8.

(** Modelled from the spec: the rights the device obtains are the caller's
    rights masked with the rights mask. *)
Definition masked_rights (held ds_cap : Z) : Z := Z.land held (ds_rights_mask ds_cap).

Definition ranges_overlap (b1 s1 b2 s2 : Z) : bool :=
  (b1 <? b2 + s2) && (b2 <? b1 + s1).

(** Modelled from the spec: [l4virtio_register_ds], declared in the header
    without a body.  [caps] is the caller's capability table: the rights it
    holds under each selector.  The call fails on an unknown reference, on
    rights that do not suffice for the backend, and on an empty, negative or
    overlapping address range; otherwise the window is added with the masked
    rights. *)
Definition l4virtio_register_ds (caps : Z -> option Z) (d : vdevice)
    (ds_cap base offset size : Z) : Z * vdevice :=
  match caps (ds_selector ds_cap) with
  | None => (L4_err.code L4_err.InvalidArgument, d)
  | Some held =>
      let rights := masked_rights held ds_cap in
      if negb (bits_subset (dev_min_rights d) rights)
         || (size <=? 0) || (base <? 0) || (offset <? 0)
         || existsb (fun r => ranges_overlap base size (r_base r) (r_size r))
                    (dev_regions d)
      then (L4_err.code L4_err.InvalidArgument, d)
      else
        (L4_err.L4_EOK,
         {| dev_cfg := dev_cfg d;
            dev_queue_cfg := dev_queue_cfg d;
            dev_regions := dev_regions d ++
              [ {| r_base := base; r_offset := offset; r_size := size;
                   r_rights := rights |} ];
            dev_queue_maps := dev_queue_maps d;
            dev_in_flight := dev_in_flight d;
            dev_processing := dev_processing d;
            dev_min_rights := dev_min_rights d |})
  end.

(** Whether the device may touch [addr] with the rights in [need]. *)
Definition device_may_access (d : vdevice) (addr need : Z) : bool :=
  existsb (fun r => (r_base r <=? addr) && (addr <? r_base r + r_size r)
                    && negb (need =? 0) && bits_subset need (r_rights r))
          (dev_regions d).

(** *** configure queue (section 4.3) *)

Section ConfigQueue.
(** The size in bytes of the ring layout of section 4.6 for [num]
    descriptors and used-ring alignment [align].  The element sizes that
    determine it belong to the virtqueue headers, so the function is a
    parameter. *)
Variable ring_layout_size : Z -> Z -> Z.

(** What else the backend considers malformed in an entry (the
    specification leaves it open); a parameter as well. *)
Variable other_malformed : l4virtio_config_queue_t -> bool.

Definition region_covers (r : region) (start size : Z) : bool :=
  (r_base r <=? start) && (start + size <=? r_base r + r_size r).

Definition queue_start (d : vdevice) (q : l4virtio_config_queue_t) : Z :=
  pfn q * guest_page_size (dev_cfg d).

Definition queue_fits (d : vdevice) (q : l4virtio_config_queue_t) : bool :=
  existsb (fun r => region_covers r (queue_start d q)
                      (ring_layout_size (num q) (align q)))
          (dev_regions d).

(** Modelled from the spec: the checks of [l4virtio_config_queue] in the
    order the specification lists them. *)
Definition check_queue (d : vdevice) (index : Z) : option L4_err.error_kind :=
  if num_queues (dev_cfg d) <=? index then Some L4_err.OutOfRange
  else
    match dev_queue_cfg d !! Z.to_nat index with
    | None => Some L4_err.InvalidArgument
    | Some q =>
        if (num_max q <? num q) || negb (queue_fits d q)
        then Some L4_err.IoConfiguration
        else if other_malformed q then Some L4_err.InvalidArgument
        else None
    end.

Definition map_queue (d : vdevice) (index : Z) (q : l4virtio_config_queue_t) : vdevice :=
  {| dev_cfg := dev_cfg d;
     dev_queue_cfg := dev_queue_cfg d;
     dev_regions := dev_regions d;
     dev_queue_maps :=
       {| qm_index := index; qm_start := queue_start d q;
          qm_size := ring_layout_size (num q) (align q) |}
       :: filter (fun m => qm_index m ≠ index) (dev_queue_maps d);
     dev_in_flight := dev_in_flight d;
     dev_processing := dev_processing d;
     dev_min_rights := dev_min_rights d |}.

(** Modelled from the spec: [l4virtio_config_queue], declared in the
    header without a body.  On success the queue is (re)mapped with the
    layout the driver wrote; on failure nothing changes. *)
Definition l4virtio_config_queue (d : vdevice) (index : Z) : Z * vdevice :=
  match check_queue d index with
  | Some k => (L4_err.code k, d)
  | None =>
      match dev_queue_cfg d !! Z.to_nat index with
      | Some q => (L4_err.L4_EOK, map_queue d index q)
      | None => (L4_err.L4_EOK, d)
      end
  end.
End ConfigQueue.

(** ** Virtqueue ring engine (section 4.6)

    The ring structures and the producer and consumer code belong to the
    virtqueue part of the package, not to the transport headers; the
    definitions of this module are written from the specification text. *)

Module Vring.

(** Modelled from the spec: the three flag bits of a descriptor
    (section 3: chained, write-access, indirect-table). *)
Record desc_flags := {
  chained : bool;
  write_access : bool;
  indirect_table : bool
}.

(** Modelled from the spec: an element of the descriptor table
    (section 3): guest-physical address, length, flags, index of the next
    descriptor of the chain. *)
Record descriptor := {
  d_addr : Z;
  d_len : Z;
  d_flags : desc_flags;
  d_next : nat
}.

(** What the driver wants to describe with one descriptor. *)
Record buffer := {
  b_addr : Z;
  b_len : Z;
  b_write : bool;
  b_indirect : bool
}.

Definition buffer_of (d : descriptor) : buffer :=
  {| b_addr := d_addr d; b_len := d_len d;
     b_write := write_access (d_flags d);
     b_indirect := indirect_table (d_flags d) |}.

(** The descriptor for [b]; it is chained to [next] when there is one. *)
Definition make_desc (b : buffer) (next : option nat) : descriptor :=
  {| d_addr := b_addr b; d_len := b_len b;
     d_flags := {| chained := bool_decide (is_Some next);
                   write_access := b_write b;
                   indirect_table := b_indirect b |};
     d_next := default 0%nat next |}.

(** A request as the producer lays it out: the table slot chosen for each
    buffer, in chain order. *)
Definition chain := list (nat * buffer).

Definition slots (c : chain) : list nat := map fst c.
Definition buffers (c : chain) : list buffer := map snd c.

(** The descriptors of the request in chain order. *)
Fixpoint chain_descs (c : chain) : list descriptor :=
  match c with
  | [] => []
  | (_, b) :: rest => make_desc b (head (slots rest)) :: chain_descs rest
  end.

(** Modelled from the spec: the producer builds the chain in the
    descriptor table (section 4.6, producer protocol). *)
Fixpoint write_chain (tbl : list descriptor) (c : chain) : list descriptor :=
  match c with
  | [] => tbl
  | (i, b) :: rest =>
      write_chain (<[i := make_desc b (head (slots rest))]> tbl) rest
  end.

(** A chain the producer may write (section 3): at least one descriptor,
    every slot inside the table, no slot used twice. *)
Definition valid_chain (tbl : list descriptor) (c : chain) : Prop :=
  c ≠ [] /\ NoDup (slots c) /\ Forall (fun i => (i < length tbl)%nat) (slots c).

(** Modelled from the spec: the consumer follows [next] while the chained
    flag is set.  An index outside the table ends the walk with a
    rejection; so does a walk of more steps than the table has entries,
    which only a cycle can cause. *)
Fixpoint walk_chain (fuel : nat) (tbl : list descriptor) (i : nat)
    : option (list descriptor) :=
  match fuel with
  | O => None
  | S fuel' =>
      match tbl !! i with
      | None => None
      | Some d =>
          if chained (d_flags d)
          then cons d <$> walk_chain fuel' tbl (d_next d)
          else Some [d]
      end
  end.

Definition total_len (ds : list descriptor) : Z :=
  fold_right (fun d acc => d_len d + acc) 0 ds.

(** Modelled from the spec: the consumer's treatment of one head index
    (section 4.6, consumer protocol): walk the chain and reject chains
    with cycles, out-of-range indices or zero total length. *)
Definition consume_chain (tbl : list descriptor) (head : nat)
    : option (list descriptor) :=
  match walk_chain (length tbl) tbl head with
  | None => None
  | Some ds => if total_len ds =? 0 then None else Some ds
  end.

(** Modelled from the spec: an entry of the used ring (section 3): head
    index and total bytes written. *)
Record used_elem := { u_id : nat; u_len : Z }.

(** Modelled from the spec: one virtqueue (sections 3 and 4.6): the
    descriptor table, the available ring with its index counter and
    suppression flag, the used ring with its own.  The counters increase
    monotonically; a slot is addressed by the counter modulo [num]. *)
Record vring := {
  vq_num : nat;
  vq_desc : list descriptor;
  avail_no_interrupt : bool;
  avail_idx : nat;
  avail_ring : list nat;
  used_no_notify : bool;
  used_idx : nat;
  used_ring : list used_elem
}.

Definition zero_desc : descriptor :=
  {| d_addr := 0; d_len := 0;
     d_flags := {| chained := false; write_access := false; indirect_table := false |};
     d_next := 0%nat |}.

Definition init (n : nat) : vring :=
  {| vq_num := n;
     vq_desc := replicate n zero_desc;
     avail_no_interrupt := false;
     avail_idx := 0%nat;
     avail_ring := replicate n 0%nat;
     used_no_notify := false;
     used_idx := 0%nat;
     used_ring := replicate n {| u_id := 0%nat; u_len := 0 |} |}.

(** Modelled from the spec: the producer appends a head index to the next
    available-ring slot and publishes it by incrementing [available.idx].
    Nothing here blocks or fails when the ring is full. *)
Definition publish (q : vring) (head : nat) : vring :=
  {| vq_num := vq_num q;
     vq_desc := vq_desc q;
     avail_no_interrupt := avail_no_interrupt q;
     avail_idx := S (avail_idx q);
     avail_ring := <[(avail_idx q mod vq_num q)%nat := head]> (avail_ring q);
     used_no_notify := used_no_notify q;
     used_idx := used_idx q;
     used_ring := used_ring q |}.

(** Modelled from the spec: the consumer takes the oldest entry it has not
    completed, writes (head index, bytes written) into the next used-ring
    slot and publishes it by incrementing [used.idx]. *)
Definition complete (q : vring) (bytes : Z) : vring :=
  let head := default 0%nat (avail_ring q !! (used_idx q mod vq_num q)%nat) in
  {| vq_num := vq_num q;
     vq_desc := vq_desc q;
     avail_no_interrupt := avail_no_interrupt q;
     avail_idx := avail_idx q;
     avail_ring := avail_ring q;
     used_no_notify := used_no_notify q;
     used_idx := S (used_idx q);
     used_ring := <[(used_idx q mod vq_num q)%nat :=
                      {| u_id := head; u_len := bytes |}]> (used_ring q) |}.

Definition outstanding (q : vring) : Z :=
  Z.of_nat (avail_idx q) - Z.of_nat (used_idx q).

(** The two parties' moves. *)
Inductive event :=
| Publish (head : nat)
| Complete (bytes : Z).

Definition apply_event (q : vring) (e : event) : vring :=
  match e with
  | Publish head => publish q head
  | Complete bytes => complete q bytes
  end.

(** Modelled from the spec: when a move follows the protocol.  The
    producer publishes only while fewer than [num] entries are outstanding
    (capacity rule; backing off is its caller's business) and names a head
    inside the table; the consumer completes only entries that have been
    published (it processes up to the observed [available.idx]). *)
Definition conforming (q : vring) (e : event) : bool :=
  match e with
  | Publish head =>
      bool_decide (outstanding q < Z.of_nat (vq_num q))
      && bool_decide (head < vq_num q)%nat
  | Complete _ => bool_decide (used_idx q < avail_idx q)%nat
  end.

(** The queue after a sequence of moves, each of which must conform;
    [None] when one does not. *)
Fixpoint run (q : vring) (evs : list event) : option vring :=
  match evs with
  | [] => Some q
  | e :: rest => if conforming q e then run (apply_event q e) rest else None
  end.

(** The head indices published by a sequence of moves, in order. *)
Fixpoint published (evs : list event) : list nat :=
  match evs with
  | [] => []
  | Publish head :: rest => head :: published rest
  | Complete _ :: rest => published rest
  end.

(** The capacity invariant. *)
Definition capacity_ok (q : vring) : Prop :=
  0 <= outstanding q <= Z.of_nat (vq_num q).

(** What the rings hold after the heads in [hist] have been published: the
entries not yet completed are still in their available-ring slots, and
the used ring holds the heads of the latest completions, in publication
order. *)
Definition ring_inv (n : nat) (hist : list nat) (q : vring) : Prop :=
  vq_num q = n /\
  length (avail_ring q) = n /\
  length (used_ring q) = n /\
  avail_idx q = length hist /\
  (used_idx q <= avail_idx q <= used_idx q + n)%nat /\
  (forall i, (used_idx q <= i < avail_idx q)%nat ->
     avail_ring q !! (i mod n)%nat = hist !! i) /\
  (forall i, (i < used_idx q)%nat -> (used_idx q <= i + n)%nat ->
     u_id <$> used_ring q !! (i mod n)%nat = hist !! i).

End Vring.


(** ** Sample instances

    Concrete values on which the statements below are exercised. *)

Definition sample_hdr (status0 queues_off dev_off : Z) : l4virtio_config_hdr_t :=
  {| magic := 0x74726976; version := 1; device := 2; vendor := 0;
     num_queues := 1; queues_offset := queues_off; dev_cfg_offset := dev_off;
     generation := 0; status := status0; irq_status := 0;
     host_features := [0; 0; 0; 0; 0; 0; 0; 0];
     guest_features := [0; 0; 0; 0; 0; 0; 0; 0];
     guest_page_size := 4096 |}.

(** The size of the ring layout of section 4.6 with the element sizes of the
    split virtqueue (16-byte descriptors, 2-byte ring slots behind three
    2-byte header words, 8-byte used elements). *)
Definition split_ring_size (n al : Z) : Z :=
  Layout.align_up (16 * n + 2 * (3 + n)) al + 2 * 3 + 8 * n.

(** One possible notion of a malformed entry besides the checked ones: an
    alignment that is not a power of two (section 3). *)
Definition align_not_pow2 (q : l4virtio_config_queue_t) : bool :=
  negb ((0 <? align q) && (Z.land (align q) (align q - 1) =? 0)).

Definition sample_region : region :=
  {| r_base := 0x100000; r_offset := 0; r_size := 0x10000; r_rights := 3 |}.

Definition sample_device (q : l4virtio_config_queue_t) : vdevice :=
  {| dev_cfg := sample_hdr 0 108 120;
     dev_queue_cfg := [q];
     dev_regions := [sample_region];
     dev_queue_maps := [];
     dev_in_flight := [];
     dev_processing := false;
     dev_min_rights := 1 |}.

Definition sample_queue_cfg (n al page : Z) : l4virtio_config_queue_t :=
  {| num_max := 256; num := n; align := al; pfn := page |}.


Definition sample_buffer (addr len : Z) (w : bool) : Vring.buffer :=
  {| Vring.b_addr := addr; Vring.b_len := len;
     Vring.b_write := w; Vring.b_indirect := false |}.

(** A two-descriptor request placed in slots 2 and 0 of a table. *)
Definition sample_chain : Vring.chain :=
  [ (2%nat, sample_buffer 0x1000 512 false); (0%nat, sample_buffer 0x2000 16 true) ].

(** A well-formed one-descriptor request that carries no bytes. *)
Definition empty_chain : Vring.chain :=
  [ (0%nat, sample_buffer 0x1000 0 false) ].

(** The request of the scenario of section 8. *)
Definition scenario_chain : Vring.chain :=
  [ (0%nat, sample_buffer 0x1000 512 false) ].

Definition sample_events : list Vring.event :=
  [ Vring.Publish 0; Vring.Publish 1; Vring.Complete 512; Vring.Publish 0;
    Vring.Complete 16 ].

(** ** The remaining enumerations of the device-class headers *)

(** *** [enum L4virtio_block_operations] ([virtio_block.h]) *)

Inductive L4virtio_block_operations :=
| L4VIRTIO_BLOCK_T_IN
| L4VIRTIO_BLOCK_T_OUT
| L4VIRTIO_BLOCK_T_FLUSH
| L4VIRTIO_BLOCK_T_GET_ID
| L4VIRTIO_BLOCK_T_DISCARD
| L4VIRTIO_BLOCK_T_WRITE_ZEROES.

#[global] Instance L4virtio_block_operations_eq_dec : EqDecision L4virtio_block_operations.
Proof. solve_decision. Defined.

Definition L4virtio_block_operations_decl : CEnum.decl :=
  [ (L4VIRTIO_BLOCK_T_IN, Some 0);
    (L4VIRTIO_BLOCK_T_OUT, Some 1);
    (L4VIRTIO_BLOCK_T_FLUSH, Some 4);
    (L4VIRTIO_BLOCK_T_GET_ID, Some 8);
    (L4VIRTIO_BLOCK_T_DISCARD, Some 11);
    (L4VIRTIO_BLOCK_T_WRITE_ZEROES, Some 13) ].

(** *** [enum L4virtio_block_status] *)

Inductive L4virtio_block_status :=
| L4VIRTIO_BLOCK_S_OK
| L4VIRTIO_BLOCK_S_IOERR
| L4VIRTIO_BLOCK_S_UNSUPP.

#[global] Instance L4virtio_block_status_eq_dec : EqDecision L4virtio_block_status.
Proof. solve_decision. Defined.

Definition L4virtio_block_status_decl : CEnum.decl :=
  [ (L4VIRTIO_BLOCK_S_OK, Some 0);
    (L4VIRTIO_BLOCK_S_IOERR, Some 1);
    (L4VIRTIO_BLOCK_S_UNSUPP, Some 2) ].

(** *** [enum L4virtio_block_discard_flags_t] *)

Inductive L4virtio_block_discard_flags_t :=
| L4VIRTIO_BLOCK_DISCARD_F_UNMAP
| L4VIRTIO_BLOCK_DISCARD_F_RESERVED.

#[global] Instance L4virtio_block_discard_flags_t_eq_dec :
  EqDecision L4virtio_block_discard_flags_t.
Proof. solve_decision. Defined.

Definition L4virtio_block_discard_flags_t_decl : CEnum.decl :=
  [ (L4VIRTIO_BLOCK_DISCARD_F_UNMAP, Some 0x00000001);
    (L4VIRTIO_BLOCK_DISCARD_F_RESERVED, Some 0xFFFFFFFE) ].

Definition discard_flag : L4virtio_block_discard_flags_t -> Z :=
  CEnum.value L4virtio_block_discard_flags_t_decl.

(** *** [enum L4virtio_input_config_select] ([virtio_input.h]) *)

Inductive L4virtio_input_config_select :=
| L4VIRTIO_INPUT_CFG_UNSET
| L4VIRTIO_INPUT_CFG_ID_NAME
| L4VIRTIO_INPUT_CFG_ID_SERIAL
| L4VIRTIO_INPUT_CFG_ID_DEVIDS
| L4VIRTIO_INPUT_CFG_PROP_BITS
| L4VIRTIO_INPUT_CFG_EV_BITS
| L4VIRTIO_INPUT_CFG_ABS_INFO.

#[global] Instance L4virtio_input_config_select_eq_dec :
  EqDecision L4virtio_input_config_select.
Proof. solve_decision. Defined.

Definition L4virtio_input_config_select_decl : CEnum.decl :=
  [ (L4VIRTIO_INPUT_CFG_UNSET, Some 0);
    (L4VIRTIO_INPUT_CFG_ID_NAME, Some 1);
    (L4VIRTIO_INPUT_CFG_ID_SERIAL, Some 2);
    (L4VIRTIO_INPUT_CFG_ID_DEVIDS, Some 3);
    (L4VIRTIO_INPUT_CFG_PROP_BITS, Some 0x10);
    (L4VIRTIO_INPUT_CFG_EV_BITS, Some 0x11);
    (L4VIRTIO_INPUT_CFG_ABS_INFO, Some 0x12) ].

(** *** [enum L4virtio_net_feature_bits] ([virtio_net.h]) *)

Inductive L4virtio_net_feature_bits :=
| L4VIRTIO_NET_F_CSUM
| L4VIRTIO_NET_F_GUEST_CSUM
| L4VIRTIO_NET_F_MTU
| L4VIRTIO_NET_F_MAC
| L4VIRTIO_NET_F_GUEST_TSO4
| L4VIRTIO_NET_F_GUEST_TSO6
| L4VIRTIO_NET_F_GUEST_ECN
| L4VIRTIO_NET_F_GUEST_UFO
| L4VIRTIO_NET_F_HOST_TSO4
| L4VIRTIO_NET_F_HOST_TSO6
| L4VIRTIO_NET_F_HOST_ECN
| L4VIRTIO_NET_F_HOST_UFO
| L4VIRTIO_NET_F_MRG_RXBUF
| L4VIRTIO_NET_F_STATUS
| L4VIRTIO_NET_F_CTRL_VQ
| L4VIRTIO_NET_F_CTRL_RX
| L4VIRTIO_NET_F_CTRL_VLAN
| L4VIRTIO_NET_F_GUEST_ANNOUNCE
| L4VIRTIO_NET_F_MQ
| L4VIRTIO_NET_F_CTRL_MAC_ADDR.

#[global] Instance L4virtio_net_feature_bits_eq_dec : EqDecision L4virtio_net_feature_bits.
Proof. solve_decision. Defined.

Definition L4virtio_net_feature_bits_decl : CEnum.decl :=
  [ (L4VIRTIO_NET_F_CSUM, Some 0);
    (L4VIRTIO_NET_F_GUEST_CSUM, Some 1);
    (L4VIRTIO_NET_F_MTU, Some 3);
    (L4VIRTIO_NET_F_MAC, Some 5);
    (L4VIRTIO_NET_F_GUEST_TSO4, Some 7);
    (L4VIRTIO_NET_F_GUEST_TSO6, Some 8);
    (L4VIRTIO_NET_F_GUEST_ECN, Some 9);
    (L4VIRTIO_NET_F_GUEST_UFO, Some 10);
    (L4VIRTIO_NET_F_HOST_TSO4, Some 11);
    (L4VIRTIO_NET_F_HOST_TSO6, Some 12);
    (L4VIRTIO_NET_F_HOST_ECN, Some 13);
    (L4VIRTIO_NET_F_HOST_UFO, Some 14);
    (L4VIRTIO_NET_F_MRG_RXBUF, Some 15);
    (L4VIRTIO_NET_F_STATUS, Some 16);
    (L4VIRTIO_NET_F_CTRL_VQ, Some 17);
    (L4VIRTIO_NET_F_CTRL_RX, Some 18);
    (L4VIRTIO_NET_F_CTRL_VLAN, Some 19);
    (L4VIRTIO_NET_F_GUEST_ANNOUNCE, Some 21);
    (L4VIRTIO_NET_F_MQ, Some 22);
    (L4VIRTIO_NET_F_CTRL_MAC_ADDR, Some 23) ].

(** The values an enumeration assigns, in declaration order. *)
Definition enum_codes {E : Type} (d : @CEnum.decl E) : list Z :=
  map snd (CEnum.values d).

Definition enum_names {E : Type} (d : @CEnum.decl E) : list E := map fst d.

(** ** Structures with nested members

    The device-class headers nest structures and, for the input device, a
    union inside a structure, and use [char] arrays.  A member of structure
    type is placed like any other member, at a multiple of the strictest
    alignment among its own members; all members of a union start at the
    union's offset and the union is as large as its largest member, padded
    to its alignment. *)

Module Aggregate.

Inductive cty :=
| base (t : Layout.ctype)
| char_array (len : Z)
| struct_of (fs : fields)
| union_of (fs : fields)
with fields :=
| fnil
| fcons (name : string) (t : cty) (rest : fields).

Fixpoint mk_fields (l : list (string * cty)) : fields :=
  match l with
  | [] => fnil
  | (n, t) :: rest => fcons n t (mk_fields rest)
  end.

Fixpoint alignof (a : Layout.abi) (t : cty) : Z :=
  match t with
  | base s => Layout.alignof a s
  | char_array _ => 1
  | struct_of fs => fields_align a fs
  | union_of fs => fields_align a fs
  end
with fields_align (a : Layout.abi) (fs : fields) : Z :=
  match fs with
  | fnil => 1
  | fcons _ t rest => Z.max (alignof a t) (fields_align a rest)
  end.

Fixpoint sizeof (a : Layout.abi) (t : cty) : Z :=
  match t with
  | base s => Layout.sizeof s
  | char_array len => len
  | struct_of fs => Layout.align_up (struct_end a 0 fs) (fields_align a fs)
  | union_of fs => Layout.align_up (union_extent a fs) (fields_align a fs)
  end
with struct_end (a : Layout.abi) (off : Z) (fs : fields) : Z :=
  match fs with
  | fnil => off
  | fcons _ t rest =>
      struct_end a (Layout.align_up off (alignof a t) + sizeof a t) rest
  end
with union_extent (a : Layout.abi) (fs : fields) : Z :=
  match fs with
  | fnil => 0
  | fcons _ t rest => Z.max (sizeof a t) (union_extent a rest)
  end.

(** The path of a nested member: [outer.inner]. *)
Definition path (outer inner : string) : string :=
  if String.eqb outer "" then inner else (outer ++ "." ++ inner)%string.

(** The scalar and array members of a type in declaration order, nested
    ones under their path, each with its offset from [start]. *)
Fixpoint leaves (a : Layout.abi) (name : string) (start : Z) (t : cty)
    : list Layout.member :=
  match t with
  | base s =>
      [ {| Layout.m_name := name; Layout.m_offset := start;
           Layout.m_size := Layout.sizeof s |} ]
  | char_array len =>
      [ {| Layout.m_name := name; Layout.m_offset := start;
           Layout.m_size := len |} ]
  | struct_of fs => struct_leaves a name start 0 fs
  | union_of fs => union_leaves a name start fs
  end
with struct_leaves (a : Layout.abi) (name : string) (start off : Z) (fs : fields)
    : list Layout.member :=
  match fs with
  | fnil => []
  | fcons n t rest =>
      let o := Layout.align_up off (alignof a t) in
      leaves a (path name n) (start + o) t
        ++ struct_leaves a name start (o + sizeof a t) rest
  end
with union_leaves (a : Layout.abi) (name : string) (start : Z) (fs : fields)
    : list Layout.member :=
  match fs with
  | fnil => []
  | fcons n t rest =>
      leaves a (path name n) start t ++ union_leaves a name start rest
  end.

Definition extents (a : Layout.abi) (t : cty) : list (string * Z * Z) :=
  map (fun m => (Layout.m_name m, Layout.m_offset m, Layout.m_size m))
      (leaves a "" 0 t).

(** A structure of the earlier, flat kind as a nested-capable type. *)
Definition of_decl (s : Layout.struct_decl) : cty :=
  struct_of (mk_fields (map (fun f => (fst f, base (snd f))) s)).

End Aggregate.

(** *** [virtio_block.h] *)

Definition l4virtio_block_header_t_decl : Aggregate.cty :=
  Aggregate.struct_of (Aggregate.mk_fields
    [ ("type"%string, Aggregate.base Layout.l4_uint32_t);
      ("ioprio"%string, Aggregate.base Layout.l4_uint32_t);
      ("sector"%string, Aggregate.base Layout.l4_uint64_t) ]).

Definition l4virtio_block_discard_t_decl : Aggregate.cty :=
  Aggregate.struct_of (Aggregate.mk_fields
    [ ("sector"%string, Aggregate.base Layout.l4_uint64_t);
      ("num_sectors"%string, Aggregate.base Layout.l4_uint32_t);
      ("flags"%string, Aggregate.base Layout.l4_uint32_t) ]).

Definition l4virtio_block_config_geometry_t_decl : Aggregate.cty :=
  Aggregate.struct_of (Aggregate.mk_fields
    [ ("cylinders"%string, Aggregate.base Layout.l4_uint16_t);
      ("heads"%string, Aggregate.base Layout.l4_uint8_t);
      ("sectors"%string, Aggregate.base Layout.l4_uint8_t) ]).

Definition l4virtio_block_config_topology_t_decl : Aggregate.cty :=
  Aggregate.struct_of (Aggregate.mk_fields
    [ ("physical_block_exp"%string, Aggregate.base Layout.l4_uint8_t);
      ("alignment_offset"%string, Aggregate.base Layout.l4_uint8_t);
      ("min_io_size"%string, Aggregate.base Layout.l4_uint16_t);
      ("opt_io_size"%string, Aggregate.base Layout.l4_uint32_t) ]).

Definition l4virtio_block_config_t_decl : Aggregate.cty :=
  Aggregate.struct_of (Aggregate.mk_fields
    [ ("capacity"%string, Aggregate.base Layout.l4_uint64_t);
      ("size_max"%string, Aggregate.base Layout.l4_uint32_t);
      ("seg_max"%string, Aggregate.base Layout.l4_uint32_t);
      ("geometry"%string, l4virtio_block_config_geometry_t_decl);
      ("blk_size"%string, Aggregate.base Layout.l4_uint32_t);
      ("topology"%string, l4virtio_block_config_topology_t_decl);
      ("writeback"%string, Aggregate.base Layout.l4_uint8_t);
      ("unused0"%string, Aggregate.base (Layout.array Layout.l4_uint8_t 1));
      ("num_queues"%string, Aggregate.base Layout.l4_uint16_t);
      ("max_discard_sectors"%string, Aggregate.base Layout.l4_uint32_t);
      ("max_discard_seg"%string, Aggregate.base Layout.l4_uint32_t);
      ("discard_sector_alignment"%string, Aggregate.base Layout.l4_uint32_t);
      ("max_write_zeroes_sectors"%string, Aggregate.base Layout.l4_uint32_t);
      ("max_write_zeroes_seg"%string, Aggregate.base Layout.l4_uint32_t);
      ("write_zeroes_may_unmap"%string, Aggregate.base Layout.l4_uint8_t);
      ("unused1"%string, Aggregate.base (Layout.array Layout.l4_uint8_t 3)) ]).

(** *** [virtio_input.h] *)

Definition l4virtio_input_absinfo_t_decl : Aggregate.cty :=
  Aggregate.struct_of (Aggregate.mk_fields
    [ ("min"%string, Aggregate.base Layout.l4_uint32_t);
      ("max"%string, Aggregate.base Layout.l4_uint32_t);
      ("fuzz"%string, Aggregate.base Layout.l4_uint32_t);
      ("flat"%string, Aggregate.base Layout.l4_uint32_t);
      ("res"%string, Aggregate.base Layout.l4_uint32_t) ]).

Definition l4virtio_input_devids_t_decl : Aggregate.cty :=
  Aggregate.struct_of (Aggregate.mk_fields
    [ ("bustype"%string, Aggregate.base Layout.l4_uint16_t);
      ("vendor"%string, Aggregate.base Layout.l4_uint16_t);
      ("product"%string, Aggregate.base Layout.l4_uint16_t);
      ("version"%string, Aggregate.base Layout.l4_uint16_t) ]).

(** The anonymous union member [u] of [l4virtio_input_config_t]. *)
Definition l4virtio_input_config_u_decl : Aggregate.cty :=
  Aggregate.union_of (Aggregate.mk_fields
    [ ("string"%string, Aggregate.char_array 128);
      ("bitmap"%string, Aggregate.base (Layout.array Layout.l4_uint8_t 128));
      ("abs"%string, l4virtio_input_absinfo_t_decl);
      ("ids"%string, l4virtio_input_devids_t_decl) ]).

Definition l4virtio_input_config_t_decl : Aggregate.cty :=
  Aggregate.struct_of (Aggregate.mk_fields
    [ ("select"%string, Aggregate.base Layout.l4_uint8_t);
      ("subsel"%string, Aggregate.base Layout.l4_uint8_t);
      ("size"%string, Aggregate.base Layout.l4_uint8_t);
      ("reserved"%string, Aggregate.base (Layout.array Layout.l4_uint8_t 5));
      ("u"%string, l4virtio_input_config_u_decl) ]).

Definition l4virtio_input_event_t_decl : Aggregate.cty :=
  Aggregate.struct_of (Aggregate.mk_fields
    [ ("type"%string, Aggregate.base Layout.l4_uint16_t);
      ("code"%string, Aggregate.base Layout.l4_uint16_t);
      ("value"%string, Aggregate.base Layout.l4_uint32_t) ]).

(** *** [virtio_net.h] *)

Definition l4virtio_net_header_t_decl : Aggregate.cty :=
  Aggregate.struct_of (Aggregate.mk_fields
    [ ("flags"%string, Aggregate.base Layout.l4_uint8_t);
      ("gso_type"%string, Aggregate.base Layout.l4_uint8_t);
      ("hdr_len"%string, Aggregate.base Layout.l4_uint16_t);
      ("gso_size"%string, Aggregate.base Layout.l4_uint16_t);
      ("csum_start"%string, Aggregate.base Layout.l4_uint16_t);
      ("csum_offset"%string, Aggregate.base Layout.l4_uint16_t);
      ("num_buffers"%string, Aggregate.base Layout.l4_uint16_t) ]).

Definition l4virtio_net_config_t_decl : Aggregate.cty :=
  Aggregate.struct_of (Aggregate.mk_fields
    [ ("mac"%string, Aggregate.base (Layout.array Layout.l4_uint8_t 6));
      ("status"%string, Aggregate.base Layout.l4_uint16_t);
      ("max_virtqueue_pairs"%string, Aggregate.base Layout.l4_uint16_t);
      ("mtu"%string, Aggregate.base Layout.l4_uint16_t);
      ("speed"%string, Aggregate.base Layout.l4_uint32_t);
      ("duplex"%string, Aggregate.base Layout.l4_uint8_t) ]).

(** An ABI with 4-byte alignment for 64-bit integers (32-bit x86). *)
Definition ia32_abi : Layout.abi :=
  {| Layout.alignof_u8 := 1; Layout.alignof_u16 := 2;
     Layout.alignof_u32 := 4; Layout.alignof_u64 := 4 |}.

(** *** Flag words *)

Definition irq_status_bit : L4_virtio_irq_status -> Z :=
  CEnum.value L4_virtio_irq_status_decl.

(** The word that has exactly the given flags or-ed together. *)
Definition or_bits {E : Type} (bit : E -> Z) (flags : list E) : Z :=
  fold_right (fun f acc => Z.lor (bit f) acc) 0 flags.

(** A device in full operation: all four lifecycle bits set, one region
    registered, one queue mapped and one request in flight. *)
Definition running_device : vdevice :=
  {| dev_cfg := sample_hdr 15 108 120;
     dev_queue_cfg := [sample_queue_cfg 8 4096 256];
     dev_regions := [sample_region];
     dev_queue_maps := [ {| qm_index := 0; qm_start := 0x100000; qm_size := 4166 |} ];
     dev_in_flight := [7];
     dev_processing := true;
     dev_min_rights := 1 |}.

(** * Properties *)

(** ** Enumerations *)

Lemma number_length {E : Type} (d : @CEnum.decl E) : forall next,
  length (CEnum.number next d) = length d.
Proof.
  induction d as [|[e [v|]] rest IH]; intros next; simpl; auto.
Qed.

(** Enumerators without an initialiser continue from their predecessor. *)
Lemma number_implicit_succ {E : Type} (e1 e2 : E) (v : Z) (rest : @CEnum.decl E) next :
  CEnum.number next ((e1, Some v) :: (e2, None) :: rest)
  = (e1, v) :: (e2, v + 1) :: CEnum.number (v + 1 + 1) rest.
Proof. reflexivity. Qed.

(** C10: the protocol number is 0 and the four opcodes are 0, 1, 2, 3 in
    declaration order (set status, configure queue, register interface,
    register data space); each opcode decodes back to itself and no other
    wire value denotes an operation. *)
Theorem opcodes_consecutive_from_zero :
  CEnum.value L4_virtio_protocol_decl L4VIRTIO_PROTOCOL = 0 /\
  opcode_value L4VIRTIO_OP_SET_STATUS = 0 /\
  opcode_value L4VIRTIO_OP_CONFIG_QUEUE = 1 /\
  opcode_value L4VIRTIO_OP_REGISTER_IFACE = 2 /\
  opcode_value L4VIRTIO_OP_REGISTER_DS = 3 /\
  (forall op, opcode_decode (opcode_value op) = Some op) /\
  (forall v, opcode_decode v =
             match v with
             | 0 => Some L4VIRTIO_OP_SET_STATUS
             | 1 => Some L4VIRTIO_OP_CONFIG_QUEUE
             | 2 => Some L4VIRTIO_OP_REGISTER_IFACE
             | 3 => Some L4VIRTIO_OP_REGISTER_DS
             | _ => None
             end).
Proof.
  repeat split.
  - intros []; reflexivity.
  - intros v. unfold opcode_decode, CEnum.decode. simpl.
    destruct v as [|p|p]; try reflexivity.
    destruct p as [[p|p|]|[p|p|]|]; reflexivity.
Qed.

(** C6: the status bits are ACKNOWLEDGE=1, DRIVER=2, DRIVER_OK=4,
    FEATURES_OK=8, FAILED=0x80; DRIVER_OK is numerically below FEATURES_OK
    although FEATURES_OK comes first in the lifecycle order. *)
Theorem status_bit_values :
  status_bit L4VIRTIO_STATUS_ACKNOWLEDGE = 1 /\
  status_bit L4VIRTIO_STATUS_DRIVER = 2 /\
  status_bit L4VIRTIO_STATUS_DRIVER_OK = 4 /\
  status_bit L4VIRTIO_STATUS_FEATURES_OK = 8 /\
  status_bit L4VIRTIO_STATUS_FAILED = 0x80 /\
  status_bit L4VIRTIO_STATUS_DRIVER_OK < status_bit L4VIRTIO_STATUS_FEATURES_OK /\
  (exists before after,
      lifecycle_order =
        before ++ L4VIRTIO_STATUS_FEATURES_OK :: L4VIRTIO_STATUS_DRIVER_OK :: after).
Proof.
  repeat split.
  exists [L4VIRTIO_STATUS_ACKNOWLEDGE; L4VIRTIO_STATUS_DRIVER], []. reflexivity.
Qed.

(** Each status bit is a single bit, and no two of them coincide. *)
Lemma status_bits_single (b : L4virtio_device_status) :
  exists k, 0 <= k /\ status_bit b = 2 ^ k.
Proof.
  destruct b;
    [exists 0 | exists 1 | exists 2 | exists 3 | exists 7]; split; (lia || reflexivity).
Qed.

Lemma status_bits_disjoint (b1 b2 : L4virtio_device_status) :
  b1 <> b2 -> Z.land (status_bit b1) (status_bit b2) = 0.
Proof. destruct b1, b2; intros H; try reflexivity; congruence. Qed.

(** C7: the device-class identifiers are network=1, block=2, console=3,
    entropy source=4, memory balloon=5, rpmsg=7, SCSI=8, 9P=9,
    rproc-serial=11, CAIF=12 and socket=0x9999; the values 6 and 10 denote
    no class; every identifier decodes back to its own class. *)
Theorem device_id_values :
  device_id_value L4VIRTIO_ID_NET = 1 /\
  device_id_value L4VIRTIO_ID_BLOCK = 2 /\
  device_id_value L4VIRTIO_ID_CONSOLE = 3 /\
  device_id_value L4VIRTIO_ID_RNG = 4 /\
  device_id_value L4VIRTIO_ID_BALLOON = 5 /\
  device_id_value L4VIRTIO_ID_RPMSG = 7 /\
  device_id_value L4VIRTIO_ID_SCSI = 8 /\
  device_id_value L4VIRTIO_ID_9P = 9 /\
  device_id_value L4VIRTIO_ID_RPROC_SERIAL = 11 /\
  device_id_value L4VIRTIO_ID_CAIF = 12 /\
  device_id_value L4VIRTIO_ID_SOCK = 0x9999 /\
  device_id_decode 6 = None /\
  device_id_decode 10 = None /\
  (forall id, device_id_decode (device_id_value id) = Some id) /\
  (forall id, device_id_value id <> 6 /\ device_id_value id <> 10).
Proof.
  repeat split; try (intros []; reflexivity); destruct id; discriminate.
Qed.

(** ** Structure layout *)

Lemma align_up_multiple (off al : Z) :
  0 < al -> off mod al = 0 -> Layout.align_up off al = off.
Proof.
  intros Hal Hmod. unfold Layout.align_up.
  apply Z.mod_divide in Hmod; [|lia]. destruct Hmod as [k ->].
  replace (k * al + al - 1) with (al - 1 + k * al) by lia.
  rewrite Z.div_add by lia. rewrite Z.div_small by lia. lia.
Qed.

(** C2: on every admissible ABI the config header has its thirteen members
    at offsets 0, 4, ..., 36 (ten words), 40 and 72 (the two feature bitmaps
    of eight words, 256 bits, each) and 104 (guest_page_size), 108 bytes in
    all with status at offset 32; a queue config entry has num_max at 0, num
    at 2, align at 4, pfn at 8, 12 bytes in all. *)
Theorem config_layout (a : Layout.abi) :
  Layout.abi_ok a ->
  Layout.extents a l4virtio_config_hdr_t_decl =
    [ ("magic"%string, 0, 4); ("version"%string, 4, 4);
      ("device"%string, 8, 4); ("vendor"%string, 12, 4);
      ("num_queues"%string, 16, 4); ("queues_offset"%string, 20, 4);
      ("dev_cfg_offset"%string, 24, 4); ("generation"%string, 28, 4);
      ("status"%string, 32, 4); ("irq_status"%string, 36, 4);
      ("host_features"%string, 40, 32); ("guest_features"%string, 72, 32);
      ("guest_page_size"%string, 104, 4) ] /\
  Layout.offsetof a l4virtio_config_hdr_t_decl "status" = Some 32 /\
  Layout.offsetof a l4virtio_config_hdr_t_decl "guest_page_size" = Some 104 /\
  Layout.struct_size a l4virtio_config_hdr_t_decl = 108 /\
  8 * Layout.sizeof (Layout.array Layout.l4_uint32_t 8) = 256 /\
  Layout.extents a l4virtio_config_queue_t_decl =
    [ ("num_max"%string, 0, 2); ("num"%string, 2, 2);
      ("align"%string, 4, 4); ("pfn"%string, 8, 4) ] /\
  Layout.struct_size a l4virtio_config_queue_t_decl = 12.
Proof.
  destruct a as [a8 a16 a32 a64].
  intros (H8 & H16 & H32 & H64); simpl in *.
  destruct H16 as [-> | ->];
    destruct H32 as [-> | [-> | ->]];
    vm_compute; repeat split; reflexivity.
Qed.

Lemma config_layout_witness :
  Layout.abi_ok Layout.natural_abi /\
  Layout.struct_size Layout.natural_abi l4virtio_config_hdr_t_decl = 108.
Proof.
  assert (Hok : Layout.abi_ok Layout.natural_abi).
  { unfold Layout.abi_ok; simpl. repeat split; auto. }
  split; [exact Hok|].
  apply (config_layout Layout.natural_abi Hok).
Defined.

(** ** Inline accessors *)

Lemma l4_addr_add_exact (addr_bits a b : Z) :
  0 <= a + b < 2 ^ addr_bits -> l4_addr_add addr_bits a b = a + b.
Proof. intros H. unfold l4_addr_add. apply Z.mod_small. exact H. Qed.

Lemma l4_addr_add_in_region (addr_bits base region_size off size : Z) :
  0 <= base -> base + region_size <= 2 ^ addr_bits ->
  0 <= off -> 0 < size -> off + size <= region_size ->
  l4_addr_add addr_bits base off = base + off /\
  in_region base region_size (l4_addr_add addr_bits base off) size.
Proof.
  intros Hb Htop Hoff Hsz Hfit.
  rewrite l4_addr_add_exact by lia.
  split; [reflexivity|]. unfold in_region. lia.
Qed.

(** C4, as the header has it: both pointers are the header address plus the
    stored offset in [l4_addr_t] arithmetic, whatever the offset; and when
    the caller has made sure that offset plus structure size stays within a
    region that lies in the address space, the pointer is exactly
    base + offset and the structure lies inside the region. *)
Theorem accessors_base_plus_offset
    (addr_bits base region_size queues_size dev_cfg_size : Z)
    (cfg : l4virtio_config_hdr_t) :
  0 <= base -> base + region_size <= 2 ^ addr_bits ->
  0 <= queues_offset cfg -> 0 < queues_size ->
  queues_offset cfg + queues_size <= region_size ->
  0 <= dev_cfg_offset cfg -> 0 < dev_cfg_size ->
  dev_cfg_offset cfg + dev_cfg_size <= region_size ->
  l4virtio_config_queues addr_bits base cfg = base + queues_offset cfg /\
  l4virtio_device_config addr_bits base cfg = base + dev_cfg_offset cfg /\
  in_region base region_size (l4virtio_config_queues addr_bits base cfg) queues_size /\
  in_region base region_size (l4virtio_device_config addr_bits base cfg) dev_cfg_size.
Proof.
  intros Hb Htop Hq Hqs Hqfit Hd Hds Hdfit.
  unfold l4virtio_config_queues, l4virtio_device_config.
  destruct (l4_addr_add_in_region addr_bits base region_size
              (queues_offset cfg) queues_size) as [Eq Rq]; try assumption.
  destruct (l4_addr_add_in_region addr_bits base region_size
              (dev_cfg_offset cfg) dev_cfg_size) as [Ed Rd]; try assumption.
  auto.
Qed.

Lemma accessors_base_plus_offset_witness :
  l4virtio_config_queues 64 0x10000 (sample_hdr 0 108 120) = 0x10000 + 108 /\
  l4virtio_device_config 64 0x10000 (sample_hdr 0 108 120) = 0x10000 + 120 /\
  in_region 0x10000 0x1000 (l4virtio_config_queues 64 0x10000 (sample_hdr 0 108 120)) 12 /\
  in_region 0x10000 0x1000 (l4virtio_device_config 64 0x10000 (sample_hdr 0 108 120)) 60.
Proof.
  apply (accessors_base_plus_offset 64 0x10000 0x1000 12 60 (sample_hdr 0 108 120));
    simpl; lia.
Defined.

(** C4, as stated, fails: the accessors take no region size and check
    nothing.  For a well-formed header at 0x10000 in a region of 4096 bytes
    whose offsets are 0x2000 and 0x3000, both pointers lie beyond the end of
    the region. *)
Lemma accessors_unchecked_counterexample :
  hdr_wf (sample_hdr 0 0x2000 0x3000) /\
  l4virtio_config_queues 64 0x10000 (sample_hdr 0 0x2000 0x3000) = 0x12000 /\
  l4virtio_device_config 64 0x10000 (sample_hdr 0 0x2000 0x3000) = 0x13000 /\
  ~ in_region 0x10000 0x1000
      (l4virtio_config_queues 64 0x10000 (sample_hdr 0 0x2000 0x3000)) 12 /\
  ~ in_region 0x10000 0x1000
      (l4virtio_device_config 64 0x10000 (sample_hdr 0 0x2000 0x3000)) 1.
Proof.
  split; [|split; [reflexivity|split; [reflexivity|]]].
  - unfold hdr_wf, is_u32; simpl.
    repeat split; try lia; try reflexivity;
      repeat constructor; unfold is_u32; lia.
  - unfold in_region. split; vm_compute; intros [H1 H2]; apply H2; reflexivity.
Qed.

(** ** Bit sets *)

Lemma bits_subset_spec (a b : Z) :
  bits_subset a b = true <->
  (forall i, Z.testbit a i = true -> Z.testbit b i = true).
Proof.
  unfold bits_subset. rewrite Z.eqb_eq. split.
  - intros H i Ha. rewrite <- H in Ha. rewrite Z.land_spec in Ha.
    apply andb_true_iff in Ha. tauto.
  - intros H. apply Z.bits_inj'. intros i _. rewrite Z.land_spec.
    destruct (Z.testbit a i) eqn:Ha; [|reflexivity].
    rewrite (H i Ha). reflexivity.
Qed.

Lemma bits_subset_refl (a : Z) : bits_subset a a = true.
Proof. apply bits_subset_spec. auto. Qed.

Lemma bits_subset_trans (a b c : Z) :
  bits_subset a b = true -> bits_subset b c = true -> bits_subset a c = true.
Proof. rewrite !bits_subset_spec. auto. Qed.



Lemma bits_subset_zero (a : Z) : bits_subset 0 a = true.
Proof. reflexivity. Qed.

Lemma bits_subset_of_zero (a : Z) : bits_subset a 0 = true -> a = 0.
Proof.
  unfold bits_subset. rewrite Z.eqb_eq, Z.land_0_r. auto.
Qed.

Lemma bits_subset_le (a b : Z) :
  0 <= b -> bits_subset a b = true -> a <= b.
Proof.
  intros Hb H.
  assert (Hd : Z.ldiff a b = 0).
  { apply Z.bits_inj'. intros i _. rewrite Z.ldiff_spec, Z.bits_0.
    destruct (Z.testbit a i) eqn:Ha; [|reflexivity].
    rewrite (proj1 (bits_subset_spec a b) H i Ha). reflexivity. }
  pose proof (Z.sub_nocarry_ldiff b a Hd) as Hsub.
  assert (0 <= Z.ldiff b a) by (apply Z.ldiff_nonneg; auto).
  lia.
Qed.

Lemma has_bit_subset (a b : Z) (s : L4virtio_device_status) :
  bits_subset a b = true -> has_bit a s = true -> has_bit b s = true.
Proof.
  unfold has_bit, bits_subset. rewrite Z.eqb_eq. intros Hsub Ha.
  apply negb_true_iff, Z.eqb_neq in Ha.
  apply negb_true_iff, Z.eqb_neq. intros Hb. apply Ha.
  rewrite <- Hsub, <- Z.land_assoc, Hb. apply Z.land_0_r.
Qed.

(** ** register data space *)


Lemma register_ds_cases caps d ds_cap base offset size :
  (fst (l4virtio_register_ds caps d ds_cap base offset size) < 0 /\
   snd (l4virtio_register_ds caps d ds_cap base offset size) = d) \/
  (exists held,
     caps (ds_selector ds_cap) = Some held /\
     fst (l4virtio_register_ds caps d ds_cap base offset size) = 0 /\
     dev_regions (snd (l4virtio_register_ds caps d ds_cap base offset size)) =
       dev_regions d ++
         [ {| r_base := base; r_offset := offset; r_size := size;
              r_rights := masked_rights held ds_cap |} ]).
Proof.
  unfold l4virtio_register_ds.
  destruct (caps (ds_selector ds_cap)) as [held|]; [|left; split; [reflexivity|reflexivity]].
  match goal with |- context [if ?c then _ else _] => destruct c end.
  - left. split; reflexivity.
  - right. exists held. repeat split.
Qed.



(** A window registered with an all-zero mask gives the device no access it
    did not have before. *)
Lemma zero_mask_denies_access
    (caps : Z -> option Z) (d : vdevice) (ds_cap base offset size addr need : Z) :
  ds_rights_mask ds_cap = 0 ->
  device_may_access (snd (l4virtio_register_ds caps d ds_cap base offset size))
    addr need = true ->
  device_may_access d addr need = true.
Proof.
  intros Hmask Hacc.
  destruct (register_ds_cases caps d ds_cap base offset size)
    as [[_ Hd] | (held & _ & _ & Hreg)].
  - rewrite Hd in Hacc. exact Hacc.
  - unfold device_may_access in *. rewrite Hreg, existsb_app in Hacc.
    apply orb_true_iff in Hacc. destruct Hacc as [Hacc | Hacc]; [exact Hacc|].
    exfalso. simpl in Hacc. rewrite orb_false_r in Hacc.
    unfold masked_rights in Hacc. rewrite Hmask, Z.land_0_r in Hacc.
    apply andb_true_iff in Hacc. destruct Hacc as [Hacc Hsub].
    apply andb_true_iff in Hacc. destruct Hacc as [_ Hne].
    apply bits_subset_of_zero in Hsub. subst need. discriminate Hne.
Qed.

(** ** set status *)

Lemma set_status_cases (d : vdevice) (w : Z) :
  (l4virtio_set_status d w = (0, reset_device d) /\ w = 0 /\
   has_bit (dev_status d) L4VIRTIO_STATUS_FAILED = false) \/
  (l4virtio_set_status d w = (0, apply_status d w) /\
   bits_subset (dev_status d) w = true) \/
  (l4virtio_set_status d w = (-22, d) /\ bits_subset (dev_status d) w = false).
Proof.
  unfold l4virtio_set_status.
  destruct (has_bit (dev_status d) L4VIRTIO_STATUS_FAILED) eqn:Hf.
  - destruct (bits_subset (dev_status d) w) eqn:Hs; [right; left|right; right]; auto.
  - destruct (Z.eqb_spec w 0) as [->|Hw]; [left; auto|].
    destruct (bits_subset (dev_status d) w) eqn:Hs; [right; left|right; right]; auto.
Qed.

Lemma dev_status_apply (d : vdevice) (w : Z) : dev_status (apply_status d w) = w.
Proof. reflexivity. Qed.

Lemma dev_status_reset (d : vdevice) : dev_status (reset_device d) = 0.
Proof. reflexivity. Qed.

(** One call: it succeeds or leaves the device alone, and the register
    keeps all its bits unless the word written is exactly 0. *)
Lemma set_status_step (d : vdevice) (w : Z) :
  (fst (l4virtio_set_status d w) = 0 \/
   (fst (l4virtio_set_status d w) < 0 /\ snd (l4virtio_set_status d w) = d)) /\
  (bits_subset (dev_status d) (dev_status (snd (l4virtio_set_status d w))) = true \/
   (w = 0 /\ snd (l4virtio_set_status d w) = reset_device d)).
Proof.
  destruct (set_status_cases d w) as [(E & Hw & _) | [(E & Hs) | (E & _)]];
    rewrite E; simpl.
  - auto.
  - split; [auto|]. left. rewrite dev_status_apply. exact Hs.
  - split; [right; split; [lia|reflexivity]|]. left. apply bits_subset_refl.
Qed.

Lemma apply_status_failed (d : vdevice) (w : Z) :
  has_bit w L4VIRTIO_STATUS_FAILED = true -> failed_quiet (apply_status d w).
Proof.
  intros Hf. split; [exact Hf|]. unfold apply_status; simpl.
  rewrite Hf. apply andb_false_r.
Qed.

Lemma set_status_failed_step (d : vdevice) (w : Z) :
  failed_quiet d ->
  failed_quiet (snd (l4virtio_set_status d w)) /\
  bits_subset (dev_status d) (dev_status (snd (l4virtio_set_status d w))) = true.
Proof.
  intros [Hf Hq].
  destruct (set_status_cases d w) as [(E & Hw & Hnf) | [(E & Hs) | (E & _)]];
    rewrite E; simpl.
  - congruence.
  - split; [|rewrite dev_status_apply; exact Hs].
    apply apply_status_failed. eapply has_bit_subset; eauto.
  - split; [split; assumption|apply bits_subset_refl].
Qed.

Lemma set_status_seq_snoc_state (d : vdevice) (w : Z) (ws : list Z) :
  snd (l4virtio_set_status_seq d (w :: ws)) = snd (l4virtio_set_status_seq (snd (l4virtio_set_status d w)) ws).
Proof.
  simpl. destruct (l4virtio_set_status d w) as [rc d1]. simpl.
  destruct (l4virtio_set_status_seq d1 ws) as [rcs d2]. reflexivity.
Qed.

Lemma set_status_seq_codes (d : vdevice) (w : Z) (ws : list Z) :
  fst (l4virtio_set_status_seq d (w :: ws)) =
  fst (l4virtio_set_status d w) :: fst (l4virtio_set_status_seq (snd (l4virtio_set_status d w)) ws).
Proof.
  simpl. destruct (l4virtio_set_status d w) as [rc d1]. simpl.
  destruct (l4virtio_set_status_seq d1 ws) as [rcs d2]. reflexivity.
Qed.

Lemma failed_is_terminal (ws : list Z) : forall d,
  failed_quiet d ->
  failed_quiet (snd (l4virtio_set_status_seq d ws)) /\
  bits_subset (dev_status d) (dev_status (snd (l4virtio_set_status_seq d ws))) = true.
Proof.
  induction ws as [|w ws IH]; intros d Hd.
  - simpl. split; [exact Hd|apply bits_subset_refl].
  - rewrite set_status_seq_snoc_state.
    destruct (set_status_failed_step d w Hd) as [Hq Hs].
    destruct (IH _ Hq) as [Hq' Hs'].
    split; [exact Hq'|]. eapply bits_subset_trans; eauto.
Qed.

Lemma last_cons {A : Type} (l : list A) : forall x a : A,
  List.last (x :: l) a = List.last l x.
Proof.
  induction l as [|y l IH]; intros x a; [reflexivity|].
  change (List.last (x :: y :: l) a) with (List.last (y :: l) a).
  rewrite (IH y a), (IH y x). reflexivity.
Qed.

Lemma monotonic_succeeds (ws : list Z) : forall d,
  monotonic_from (dev_status d) ws ->
  Forall (fun rc => rc = 0) (fst (l4virtio_set_status_seq d ws)) /\
  dev_status (snd (l4virtio_set_status_seq d ws)) = List.last ws (dev_status d).
Proof.
  induction ws as [|w ws IH]; intros d Hm.
  - simpl. auto.
  - destruct Hm as [Hs Hm].
    rewrite set_status_seq_codes, set_status_seq_snoc_state.
    assert (Hstep : fst (l4virtio_set_status d w) = 0 /\ dev_status (snd (l4virtio_set_status d w)) = w).
    { destruct (set_status_cases d w) as [(E & Hw & _) | [(E & _) | (E & Hn)]];
        rewrite E; simpl; auto; congruence. }
    destruct Hstep as [Hrc Hst].
    rewrite <- Hst in Hm. destruct (IH _ Hm) as [Hall Hlast].
    split; [constructor; assumption|].
    rewrite Hlast, Hst. symmetry. apply last_cons.
Qed.

Lemma lifecycle_words_monotonic : monotonic_from 0 lifecycle_words.
Proof. vm_compute. repeat split. Qed.

Lemma bits_subset_lor_l (a b : Z) : bits_subset a (Z.lor a b) = true.
Proof.
  apply bits_subset_spec. intros i H. rewrite Z.lor_spec, H. reflexivity.
Qed.

(** C3: over any sequence of set-status calls the status register keeps
    every bit it has, except that a write of exactly 0 resets the device to
    the unconfigured state; once a write containing FAILED has been taken,
    FAILED stays set, no bit is cleared by any later call and the device
    processes no queue; and every sequence of status words in which each
    word keeps the bits of its predecessor succeeds call by call, in
    particular 0, ACKNOWLEDGE, +DRIVER, +FEATURES_OK, +DRIVER_OK.
    Call by call: on a device that has not failed a write of exactly 0 is
    taken and leaves status 0, no region, no queue mapping, nothing in
    flight and no queue processing; on a failed device it is refused and
    changes nothing; a non-zero word is taken exactly when it keeps every
    current bit, and then becomes the status; any other non-zero word is
    refused and changes nothing. *)
Theorem set_status_monotone_except_reset :
  (forall d w,
     (fst (l4virtio_set_status d w) = 0 \/
      (fst (l4virtio_set_status d w) < 0 /\ snd (l4virtio_set_status d w) = d)) /\
     (bits_subset (dev_status d) (dev_status (snd (l4virtio_set_status d w))) = true \/
      (w = 0 /\ snd (l4virtio_set_status d w) = reset_device d)) /\
     (0 <= dev_status d -> 0 <= w ->
      dev_status d <= dev_status (snd (l4virtio_set_status d w)) \/ w = 0)) /\
  (forall d,
     dev_status (reset_device d) = 0 /\ dev_regions (reset_device d) = [] /\
     dev_queue_maps (reset_device d) = [] /\ dev_in_flight (reset_device d) = [] /\
     dev_processing (reset_device d) = false) /\
  (forall d, fst (l4virtio_set_status d (Z.lor (dev_status d)
                                 (status_bit L4VIRTIO_STATUS_FAILED))) = 0) /\
  (forall d w ws,
     has_bit w L4VIRTIO_STATUS_FAILED = true -> fst (l4virtio_set_status d w) = 0 ->
     dev_processing (snd (l4virtio_set_status d w)) = false /\
     has_bit (dev_status (snd (l4virtio_set_status_seq (snd (l4virtio_set_status d w)) ws)))
       L4VIRTIO_STATUS_FAILED = true /\
     bits_subset (dev_status (snd (l4virtio_set_status d w)))
       (dev_status (snd (l4virtio_set_status_seq (snd (l4virtio_set_status d w)) ws))) = true /\
     dev_processing (snd (l4virtio_set_status_seq (snd (l4virtio_set_status d w)) ws)) = false) /\
  (forall d ws,
     monotonic_from (dev_status d) ws ->
     Forall (fun rc => rc = 0) (fst (l4virtio_set_status_seq d ws)) /\
     dev_status (snd (l4virtio_set_status_seq d ws)) = List.last ws (dev_status d)) /\
  lifecycle_words = [0; 1; 3; 11; 15] /\
  (forall d, dev_status d = 0 ->
     fst (l4virtio_set_status_seq d lifecycle_words) = [0; 0; 0; 0; 0] /\
     dev_status (snd (l4virtio_set_status_seq d lifecycle_words)) = 15) /\
  (forall d, has_bit (dev_status d) L4VIRTIO_STATUS_FAILED = false ->
     l4virtio_set_status d 0 = (0, reset_device d) /\
     dev_status (snd (l4virtio_set_status d 0)) = 0 /\
     dev_regions (snd (l4virtio_set_status d 0)) = [] /\
     dev_queue_maps (snd (l4virtio_set_status d 0)) = [] /\
     dev_in_flight (snd (l4virtio_set_status d 0)) = [] /\
     dev_processing (snd (l4virtio_set_status d 0)) = false) /\
  (forall d, has_bit (dev_status d) L4VIRTIO_STATUS_FAILED = true ->
     l4virtio_set_status d 0 = (L4_err.code L4_err.InvalidArgument, d)) /\
  (forall d w, w <> 0 -> fst (l4virtio_set_status d w) = 0 ->
     bits_subset (dev_status d) w = true /\
     dev_status (snd (l4virtio_set_status d w)) = w) /\
  (forall d w, w <> 0 -> bits_subset (dev_status d) w = false ->
     l4virtio_set_status d w = (L4_err.code L4_err.InvalidArgument, d)).
Proof.
  split; [|split; [|split; [|split; [|split; [|split;
    [|split; [|split; [|split; [|split]]]]]]]]].
  - intros d w. destruct (set_status_step d w) as [Hrc Hsub].
    split; [exact Hrc|]. split; [exact Hsub|].
    intros Hd Hw. destruct Hsub as [Hsub | [Hz _]]; [left|right; exact Hz].
    apply bits_subset_le; [|exact Hsub].
    destruct (set_status_cases d w) as [(E & _) | [(E & _) | (E & _)]];
      rewrite E; unfold dev_status in *; simpl; lia.
  - intros d. repeat split.
  - intros d.
    destruct (set_status_cases d (Z.lor (dev_status d) (status_bit L4VIRTIO_STATUS_FAILED)))
      as [(E & _) | [(E & _) | (E & Hn)]]; rewrite E; simpl; try reflexivity.
    rewrite bits_subset_lor_l in Hn. discriminate.
  - intros d w ws Hf Hrc.
    assert (Hq : failed_quiet (snd (l4virtio_set_status d w))).
    { destruct (set_status_cases d w) as [(E & Hw & _) | [(E & _) | (E & _)]];
        rewrite E in *; simpl in *.
      - subst w. discriminate Hf.
      - apply apply_status_failed. exact Hf.
      - discriminate Hrc. }
    destruct (failed_is_terminal ws _ Hq) as [[Hf2 Hp2] Hs2].
    destruct Hq as [_ Hp1]. auto.
  - intros d ws Hm. apply monotonic_succeeds. exact Hm.
  - reflexivity.
  - intros d Hd.
    pose proof lifecycle_words_monotonic as Hm. rewrite <- Hd in Hm.
    destruct (monotonic_succeeds lifecycle_words d Hm) as [Hall Hlast].
    split; [|rewrite Hlast; reflexivity].
    assert (Hlen : length (fst (l4virtio_set_status_seq d lifecycle_words)) = 5%nat).
    { clear. change lifecycle_words with [0; 1; 3; 11; 15].
      rewrite !set_status_seq_codes. reflexivity. }
    destruct (fst (l4virtio_set_status_seq d lifecycle_words)) as [|a [|b [|c [|e [|f [|g l]]]]]];
      try discriminate Hlen.
    repeat match goal with
           | H : Forall _ (_ :: _) |- _ => inversion H; clear H; subst
           end.
    reflexivity.
  - intros d Hnf.
    assert (E : l4virtio_set_status d 0 = (0, reset_device d)).
    { unfold l4virtio_set_status. rewrite Hnf. reflexivity. }
    rewrite E. repeat split.
  - intros d Hf. unfold l4virtio_set_status. rewrite Hf.
    destruct (bits_subset (dev_status d) 0) eqn:Hs; [|reflexivity].
    apply bits_subset_of_zero in Hs. rewrite Hs in Hf. discriminate Hf.
  - intros d w Hw Hrc.
    destruct (set_status_cases d w) as [(E & Hz & _) | [(E & Hs) | (E & _)]];
      rewrite E in *; simpl in *.
    + contradiction.
    + split; [exact Hs|reflexivity].
    + discriminate Hrc.
  - intros d w Hw Hs.
    destruct (set_status_cases d w) as [(E & Hz & _) | [(E & Hs') | (E & _)]].
    + contradiction.
    + congruence.
    + exact E.
Qed.

Lemma set_status_monotone_except_reset_witness :
  monotonic_from (dev_status (sample_device (sample_queue_cfg 8 4096 256)))
    lifecycle_words /\
  Forall (fun rc => rc = 0)
    (fst (l4virtio_set_status_seq (sample_device (sample_queue_cfg 8 4096 256)) lifecycle_words)) /\
  dev_status (snd (l4virtio_set_status_seq (sample_device (sample_queue_cfg 8 4096 256))
                     lifecycle_words)) = 15 /\
  dev_status running_device = 15 /\
  l4virtio_set_status running_device 0 = (0, reset_device running_device) /\
  dev_status (snd (l4virtio_set_status running_device 0)) = 0 /\
  dev_regions (snd (l4virtio_set_status running_device 0)) = [] /\
  dev_queue_maps (snd (l4virtio_set_status running_device 0)) = [] /\
  dev_in_flight (snd (l4virtio_set_status running_device 0)) = [] /\
  dev_processing (snd (l4virtio_set_status running_device 0)) = false.
Proof.
  assert (Hm : monotonic_from (dev_status (sample_device (sample_queue_cfg 8 4096 256)))
                 lifecycle_words).
  { vm_compute. repeat split. }
  assert (Hnf : has_bit (dev_status running_device) L4VIRTIO_STATUS_FAILED = false)
    by reflexivity.
  split; [exact Hm|].
  pose proof (proj1 (proj2 (proj2 (proj2 (proj2 set_status_monotone_except_reset))))
           (sample_device (sample_queue_cfg 8 4096 256)) lifecycle_words Hm) as [H1 H2].
  split; [exact H1|]. split; [exact H2|]. split; [reflexivity|].
  exact (proj1 (proj2 (proj2 (proj2 (proj2 (proj2 (proj2 (proj2
           set_status_monotone_except_reset)))))))
           running_device Hnf).
Defined.

(** ** configure queue *)

Lemma error_codes_distinct :
  (forall k, L4_err.code k < 0) /\
  (forall k1 k2, L4_err.code k1 = L4_err.code k2 -> k1 = k2) /\
  (forall r, L4_err.to_int r = 0 <-> r = None).
Proof.
  split; [|split].
  - intros []; reflexivity.
  - intros [] []; simpl; intros H; try reflexivity; discriminate H.
  - intros [[]|]; simpl; split; intros H; try reflexivity; discriminate H.
Qed.

Section ConfigQueueProps.
Variable ring_layout_size : Z -> Z -> Z.
Variable other_malformed : l4virtio_config_queue_t -> bool.

Local Abbreviation check := (check_queue ring_layout_size other_malformed).
Local Abbreviation configure := (l4virtio_config_queue ring_layout_size other_malformed).
Local Abbreviation fits := (queue_fits ring_layout_size).

Lemma configure_queue_code (d : vdevice) (index : Z) :
  fst (configure d index) = L4_err.to_int (check d index).
Proof.
  unfold l4virtio_config_queue.
  destruct (check_queue ring_layout_size other_malformed d index) as [k|];
    [reflexivity|].
  destruct (dev_queue_cfg d !! Z.to_nat index); reflexivity.
Qed.

Lemma configure_queue_failure_keeps (d : vdevice) (index : Z) :
  fst (configure d index) <> 0 -> snd (configure d index) = d.
Proof.
  unfold l4virtio_config_queue.
  destruct (check_queue ring_layout_size other_malformed d index) as [k|];
    [reflexivity|].
  destruct (dev_queue_cfg d !! Z.to_nat index);
    intros H; exfalso; apply H; reflexivity.
Qed.

(** A ring that ends beyond every registered region does not fit. *)
Lemma exceeds_regions_not_fits (d : vdevice) (q : l4virtio_config_queue_t) :
  Forall (fun r => r_base r + r_size r <
                   queue_start d q + ring_layout_size (num q) (align q))
         (dev_regions d) ->
  fits d q = false.
Proof.
  unfold queue_fits. induction (dev_regions d) as [|r rs IH]; intros H.
  - reflexivity.
  - inversion H as [|? ? Hr Hrs]; subst. simpl. rewrite (IH Hrs).
    unfold region_covers.
    destruct (Z.leb_spec (queue_start d q + ring_layout_size (num q) (align q))
                (r_base r + r_size r)); [lia|].
    rewrite andb_false_r. reflexivity.
Qed.

(** C1: the result of configure queue.  An index at or beyond num_queues
    gives the out-of-range code; for an index in range whose entry asks
    for more descriptors than num_max, or whose ring (starting at
    pfn * guest_page_size, of the computed layout size) is not covered by
    a registered region, the I/O-configuration code; any other malformed
    entry the invalid-argument code; otherwise 0.  The three codes are
    negative and pairwise different. *)
Theorem configure_queue_error_codes (d : vdevice) (index : Z) :
  (num_queues (dev_cfg d) <= index ->
     fst (configure d index) = L4_err.code L4_err.OutOfRange) /\
  (forall q, index < num_queues (dev_cfg d) ->
     dev_queue_cfg d !! Z.to_nat index = Some q ->
     num_max q < num q \/ fits d q = false ->
     fst (configure d index) = L4_err.code L4_err.IoConfiguration) /\
  (forall q, index < num_queues (dev_cfg d) ->
     dev_queue_cfg d !! Z.to_nat index = Some q ->
     num_max q < num q \/
     Forall (fun r => r_base r + r_size r <
                      pfn q * guest_page_size (dev_cfg d)
                      + ring_layout_size (num q) (align q))
            (dev_regions d) ->
     fst (configure d index) = L4_err.code L4_err.IoConfiguration) /\
  (forall q, index < num_queues (dev_cfg d) ->
     dev_queue_cfg d !! Z.to_nat index = Some q ->
     num q <= num_max q -> fits d q = true -> other_malformed q = true ->
     fst (configure d index) = L4_err.code L4_err.InvalidArgument) /\
  (index < num_queues (dev_cfg d) ->
     dev_queue_cfg d !! Z.to_nat index = None ->
     fst (configure d index) = L4_err.code L4_err.InvalidArgument) /\
  (forall q, index < num_queues (dev_cfg d) ->
     dev_queue_cfg d !! Z.to_nat index = Some q ->
     num q <= num_max q -> fits d q = true -> other_malformed q = false ->
     fst (configure d index) = 0) /\
  (fst (configure d index) <> 0 -> snd (configure d index) = d) /\
  L4_err.code L4_err.OutOfRange = -34 /\
  L4_err.code L4_err.IoConfiguration = -5 /\
  L4_err.code L4_err.InvalidArgument = -22 /\
  (forall k, L4_err.code k < 0) /\
  (forall k1 k2, L4_err.code k1 = L4_err.code k2 -> k1 = k2).
Proof.
  assert (Hio : forall q, index < num_queues (dev_cfg d) ->
     dev_queue_cfg d !! Z.to_nat index = Some q ->
     num_max q < num q \/ fits d q = false ->
     fst (configure d index) = L4_err.code L4_err.IoConfiguration).
  { intros q Hlt Hq Hbad. rewrite configure_queue_code.
    unfold check_queue.
    destruct (Z.leb_spec (num_queues (dev_cfg d)) index); [lia|].
    rewrite Hq. fold (fits d q).
    destruct Hbad as [Hnum | Hfit].
    - destruct (Z.ltb_spec (num_max q) (num q)); [reflexivity|lia].
    - rewrite Hfit. rewrite orb_true_r. reflexivity. }
  repeat match goal with |- _ /\ _ => split end;
    try reflexivity; try apply error_codes_distinct.
  - intros Hge. rewrite configure_queue_code. unfold check_queue.
    destruct (Z.leb_spec (num_queues (dev_cfg d)) index); [reflexivity|lia].
  - exact Hio.
  - intros q Hlt Hq [Hnum | Hex]; apply (Hio q Hlt Hq); [left; exact Hnum|].
    right. apply exceeds_regions_not_fits. exact Hex.
  - intros q Hlt Hq Hnum Hfit Hmal. rewrite configure_queue_code.
    unfold check_queue.
    destruct (Z.leb_spec (num_queues (dev_cfg d)) index); [lia|].
    rewrite Hq. fold (fits d q). rewrite Hfit, Hmal.
    destruct (Z.ltb_spec (num_max q) (num q)); [lia|reflexivity].
  - intros Hlt Hq. rewrite configure_queue_code. unfold check_queue.
    destruct (Z.leb_spec (num_queues (dev_cfg d)) index); [lia|].
    rewrite Hq. reflexivity.
  - intros q Hlt Hq Hnum Hfit Hmal. rewrite configure_queue_code.
    unfold check_queue.
    destruct (Z.leb_spec (num_queues (dev_cfg d)) index); [lia|].
    rewrite Hq. fold (fits d q). rewrite Hfit, Hmal.
    destruct (Z.ltb_spec (num_max q) (num q)); [lia|reflexivity].
  - apply configure_queue_failure_keeps.
Qed.
End ConfigQueueProps.

Lemma configure_queue_error_codes_witness :
  fst (l4virtio_config_queue split_ring_size align_not_pow2
         (sample_device (sample_queue_cfg 8 4096 256)) 1) = -34 /\
  fst (l4virtio_config_queue split_ring_size align_not_pow2
         (sample_device (sample_queue_cfg 512 4096 256)) 0) = -5 /\
  fst (l4virtio_config_queue split_ring_size align_not_pow2
         (sample_device (sample_queue_cfg 8 4096 271)) 0) = -5 /\
  fst (l4virtio_config_queue split_ring_size align_not_pow2
         (sample_device (sample_queue_cfg 8 48 256)) 0) = -22 /\
  fst (l4virtio_config_queue split_ring_size align_not_pow2
         (sample_device (sample_queue_cfg 8 4096 256)) 0) = 0.
Proof.
  split; [|split; [|split; [|split]]].
  - apply (proj1 (configure_queue_error_codes split_ring_size align_not_pow2
             (sample_device (sample_queue_cfg 8 4096 256)) 1)).
    simpl. lia.
  - apply (proj1 (proj2 (configure_queue_error_codes split_ring_size align_not_pow2
             (sample_device (sample_queue_cfg 512 4096 256)) 0))
             (sample_queue_cfg 512 4096 256)).
    + simpl. lia.
    + reflexivity.
    + left. simpl. lia.
  - apply (proj1 (proj2 (proj2 (configure_queue_error_codes split_ring_size
             align_not_pow2 (sample_device (sample_queue_cfg 8 4096 271)) 0)))
             (sample_queue_cfg 8 4096 271)).
    + simpl. lia.
    + reflexivity.
    + right. repeat constructor.
  - apply (proj1 (proj2 (proj2 (proj2 (configure_queue_error_codes split_ring_size
             align_not_pow2 (sample_device (sample_queue_cfg 8 48 256)) 0))))
             (sample_queue_cfg 8 48 256)).
    + simpl. lia.
    + reflexivity.
    + simpl. lia.
    + vm_compute. reflexivity.
    + vm_compute. reflexivity.
  - apply (proj1 (proj2 (proj2 (proj2 (proj2 (proj2
             (configure_queue_error_codes split_ring_size align_not_pow2
                (sample_device (sample_queue_cfg 8 4096 256)) 0))))))
             (sample_queue_cfg 8 4096 256)).
    + simpl. lia.
    + reflexivity.
    + simpl. lia.
    + vm_compute. reflexivity.
    + vm_compute. reflexivity.
Defined.

(** ** Descriptor chains *)

Module VringProps.
Import Vring.

Lemma write_chain_length (c : chain) : forall tbl,
  length (write_chain tbl c) = length tbl.
Proof.
  induction c as [|[i b] rest IH]; intros tbl; simpl; [reflexivity|].
  rewrite IH. apply length_insert.
Qed.

(** Writing a chain leaves every slot outside the chain alone. *)
Lemma write_chain_lookup_other (c : chain) : forall tbl (i : nat),
  i ∉ slots c -> write_chain tbl c !! i = tbl !! i.
Proof.
  induction c as [|[j b] rest IH]; intros tbl i Hi; simpl; [reflexivity|].
  simpl in Hi. apply not_elem_of_cons in Hi. destruct Hi as [Hne Hi].
  rewrite (IH _ _ Hi). apply list_lookup_insert_ne. auto.
Qed.

(** A chain without repeated slots is no longer than the table. *)
Lemma valid_chain_length (tbl : list descriptor) (c : chain) :
  NoDup (slots c) -> Forall (fun i => (i < length tbl)%nat) (slots c) ->
  (length c <= length tbl)%nat.
Proof.
  intros Hnd Hall.
  assert (Hincl : slots c ⊆ seq 0 (length tbl)).
  { intros i Hi. apply elem_of_seq. rewrite Forall_forall in Hall.
    specialize (Hall i Hi). lia. }
  pose proof (submseteq_length _ _ (NoDup_submseteq _ _ Hnd (fun i Hi => Hincl i Hi))) as Hlen.
  rewrite length_seq in Hlen. unfold slots in Hlen. rewrite length_map in Hlen.
  exact Hlen.
Qed.

(** The walk over a freshly written chain returns the chain, provided the
    fuel covers its length. *)
Lemma walk_written_chain (c : chain) : forall tbl fuel h,
  head (slots c) = Some h ->
  NoDup (slots c) -> Forall (fun i => (i < length tbl)%nat) (slots c) ->
  (length c <= fuel)%nat ->
  walk_chain fuel (write_chain tbl c) h = Some (chain_descs c).
Proof.
  induction c as [|[i b] rest IH]; intros tbl fuel h Hh Hnd Hall Hfuel;
    [discriminate Hh|].
  simpl in Hh. injection Hh as <-.
  simpl in Hnd, Hall, Hfuel.
  apply NoDup_cons in Hnd. destruct Hnd as [Hfresh Hnd].
  apply Forall_cons in Hall. destruct Hall as [Hi Hall].
  destruct fuel as [|fuel]; [lia|].
  simpl. rewrite (write_chain_lookup_other rest _ _ Hfresh).
  rewrite list_lookup_insert_eq by exact Hi.
  destruct rest as [|[j b'] rest'].
  - reflexivity.
  - change (head (slots ((j, b') :: rest'))) with (Some j).
    cbn [make_desc d_flags chained d_next default].
    rewrite bool_decide_eq_true_2 by (eexists; reflexivity).
    rewrite (IH (<[i := make_desc b (Some j)]> tbl) fuel j); first reflexivity.
    + reflexivity.
    + exact Hnd.
    + rewrite length_insert. exact Hall.
    + simpl in *. lia.
Qed.

Lemma buffer_of_make_desc (b : buffer) (next : option nat) :
  buffer_of (make_desc b next) = b.
Proof. destruct b; reflexivity. Qed.

Lemma buffers_of_chain_descs (c : chain) :
  map buffer_of (chain_descs c) = buffers c.
Proof.
  induction c as [|[i b] rest IH]; simpl; [reflexivity|].
  rewrite buffer_of_make_desc. unfold buffers in IH. rewrite IH. reflexivity.
Qed.

(** The raw walk reconstructs every valid chain. *)
Lemma walk_valid_chain (tbl : list descriptor) (c : chain) (h : nat) :
  valid_chain tbl c -> head (slots c) = Some h ->
  walk_chain (length (write_chain tbl c)) (write_chain tbl c) h
  = Some (chain_descs c).
Proof.
  intros (Hne & Hnd & Hall) Hh.
  apply walk_written_chain; auto.
  rewrite write_chain_length. apply valid_chain_length; assumption.
Qed.

(** Every descriptor of the chain sits in the table slot chosen for it. *)
Lemma written_chain_in_table (c : chain) : forall tbl,
  NoDup (slots c) -> Forall (fun i => (i < length tbl)%nat) (slots c) ->
  Forall2 (fun i d => write_chain tbl c !! i = Some d) (slots c) (chain_descs c).
Proof.
  induction c as [|[i b] rest IH]; intros tbl Hnd Hall; simpl; [constructor|].
  simpl in Hnd, Hall.
  apply NoDup_cons in Hnd. destruct Hnd as [Hfresh Hnd].
  apply Forall_cons in Hall. destruct Hall as [Hi Hall].
  constructor.
  - rewrite (write_chain_lookup_other rest _ _ Hfresh).
    apply list_lookup_insert_eq. exact Hi.
  - apply IH; [exact Hnd|]. rewrite length_insert. exact Hall.
Qed.

(** C9: a valid chain (at least one descriptor, every slot inside the
    table, no slot used twice), once written by the producer into the
    table, is reconstructed by the consumer's chain walk descriptor by
    descriptor in chain order, with the address, length and flags the
    producer wrote.  What the consumer then does with the request depends
    on its total length only: it takes the reconstructed chain when the
    total is not zero and drops the request when it is. *)
Theorem chain_round_trip (tbl : list descriptor) (c : chain) (h : nat) :
  valid_chain tbl c ->
  head (slots c) = Some h ->
  Forall2 (fun i d => write_chain tbl c !! i = Some d) (slots c) (chain_descs c) /\
  walk_chain (length (write_chain tbl c)) (write_chain tbl c) h
    = Some (chain_descs c) /\
  map buffer_of (chain_descs c) = buffers c /\
  length (chain_descs c) = length c /\
  (total_len (chain_descs c) <> 0 ->
   consume_chain (write_chain tbl c) h = Some (chain_descs c)) /\
  (total_len (chain_descs c) = 0 ->
   consume_chain (write_chain tbl c) h = None).
Proof.
  intros Hv Hh.
  pose proof (walk_valid_chain tbl c h Hv Hh) as Hwalk.
  split; [|split; [|split; [|split; [|split]]]].
  - destruct Hv as (_ & Hnd & Hall). apply written_chain_in_table; assumption.
  - exact Hwalk.
  - apply buffers_of_chain_descs.
  - rewrite <- (length_map buffer_of), buffers_of_chain_descs.
    unfold buffers. apply length_map.
  - intros Hlen. unfold consume_chain. rewrite Hwalk.
    destruct (Z.eqb_spec (total_len (chain_descs c)) 0); [contradiction|reflexivity].
  - intros Hlen. unfold consume_chain. rewrite Hwalk, Hlen. reflexivity.
Qed.

Lemma chain_round_trip_witness :
  valid_chain (replicate 4 zero_desc) sample_chain /\
  walk_chain 4 (write_chain (replicate 4 zero_desc) sample_chain) 2
  = Some (chain_descs sample_chain) /\
  consume_chain (write_chain (replicate 4 zero_desc) sample_chain) 2
  = Some (chain_descs sample_chain) /\
  valid_chain (replicate 4 zero_desc) empty_chain /\
  walk_chain 4 (write_chain (replicate 4 zero_desc) empty_chain) 0
  = Some (chain_descs empty_chain) /\
  consume_chain (write_chain (replicate 4 zero_desc) empty_chain) 0 = None.
Proof.
  assert (Hv : valid_chain (replicate 4 zero_desc) sample_chain).
  { split; [discriminate|]. split.
    - apply NoDup_cons. split; [|apply NoDup_singleton].
      intros H. apply list_elem_of_singleton in H. discriminate H.
    - repeat constructor. }
  assert (He : valid_chain (replicate 4 zero_desc) empty_chain).
  { split; [discriminate|]. split.
    - apply NoDup_singleton.
    - repeat constructor. }
  destruct (chain_round_trip (replicate 4 zero_desc) sample_chain 2 Hv eq_refl)
    as (_ & Hw & _ & _ & Hc & _).
  destruct (chain_round_trip (replicate 4 zero_desc) empty_chain 0 He eq_refl)
    as (_ & Hw0 & _ & _ & _ & Hc0).
  split; [exact Hv|]. split; [exact Hw|].
  split; [apply Hc; discriminate|].
  split; [exact He|]. split; [exact Hw0|].
  apply Hc0. reflexivity.
Defined.

(** The scenario of section 8: one descriptor of 512 bytes at slot 0 is
    published, consumed and completed. *)
Example scenario_single_request :
  let q0 := init 4 in
  let tbl := write_chain (vq_desc q0) scenario_chain in
  let q1 := publish q0 0 in
  let q2 := complete q1 512 in
  avail_idx q1 = 1%nat /\
  consume_chain tbl 0 = Some (chain_descs scenario_chain) /\
  total_len (chain_descs scenario_chain) = 512 /\
  used_idx q2 = 1%nat /\
  used_ring q2 !! 0%nat = Some {| u_id := 0; u_len := 512 |}.
Proof. repeat split. Qed.

(** ** Ring capacity *)

Lemma capacity_init (n : nat) : capacity_ok (init n).
Proof. unfold capacity_ok, outstanding; simpl. lia. Qed.

Lemma apply_event_num (q : vring) (e : event) :
  vq_num (apply_event q e) = vq_num q.
Proof. destruct e; reflexivity. Qed.

(** The engine's publish is unguarded: it always adds one outstanding
    entry, also on a full ring. *)
Lemma publish_outstanding (q : vring) (h : nat) :
  outstanding (publish q h) = outstanding q + 1.
Proof. unfold outstanding; simpl. lia. Qed.

Lemma complete_outstanding (q : vring) (bytes : Z) :
  outstanding (complete q bytes) = outstanding q - 1.
Proof. unfold outstanding; simpl. lia. Qed.

Lemma conforming_keeps_capacity (q : vring) (e : event) :
  capacity_ok q -> conforming q e = true -> capacity_ok (apply_event q e).
Proof.
  unfold capacity_ok. intros Hq Hc. rewrite apply_event_num.
  destruct e as [h|bytes]; simpl in *.
  - apply andb_true_iff in Hc. destruct Hc as [Hc _].
    apply bool_decide_eq_true in Hc. rewrite publish_outstanding. lia.
  - apply bool_decide_eq_true in Hc. rewrite complete_outstanding.
    unfold outstanding in *. lia.
Qed.

Lemma run_capacity (evs : list event) : forall q q',
  capacity_ok q -> run q evs = Some q' ->
  capacity_ok q' /\ vq_num q' = vq_num q.
Proof.
  induction evs as [|e evs IH]; intros q q' Hq Hrun; simpl in Hrun.
  - injection Hrun as <-. auto.
  - destruct (conforming q e) eqn:Hc; [|discriminate Hrun].
    destruct (IH _ _ (conforming_keeps_capacity q e Hq Hc) Hrun) as [Hcap Hnum].
    split; [exact Hcap|]. rewrite Hnum. apply apply_event_num.
Qed.

(** A run that conforms conforms up to every intermediate point. *)
Lemma run_app (evs1 evs2 : list event) : forall q,
  run q (evs1 ++ evs2) = run q evs1 ≫= fun q1 => run q1 evs2.
Proof.
  induction evs1 as [|e evs1 IH]; intros q; simpl; [reflexivity|].
  destruct (conforming q e); [apply IH|reflexivity].
Qed.

Lemma run_prefix (evs : list event) (k : nat) (q q' : vring) :
  run q evs = Some q' -> exists qk, run q (take k evs) = Some qk.
Proof.
  intros Hrun. rewrite <- (take_drop k evs), run_app in Hrun.
  destruct (run q (take k evs)) as [qk|]; [eauto|discriminate Hrun].
Qed.

(** C8: in every state the queue reaches from its initial state by moves
    that follow the protocol, and in every state it passed through on the
    way (after each publish and each completion), at most num entries are
    outstanding: 0 <= available.idx - used.idx <= num.  The publish
    operation itself never blocks or refuses: it adds one outstanding
    entry whatever the state, so the bound rests on the producer holding
    back when the ring is full. *)
Theorem ring_capacity (n : nat) (evs : list event) (q : vring) :
  run (init n) evs = Some q ->
  vq_num q = n /\
  0 <= Z.of_nat (avail_idx q) - Z.of_nat (used_idx q) <= Z.of_nat n /\
  (forall k, exists qk,
      run (init n) (take k evs) = Some qk /\
      vq_num qk = n /\
      0 <= Z.of_nat (avail_idx qk) - Z.of_nat (used_idx qk) <= Z.of_nat n) /\
  (forall q0 h, outstanding (publish q0 h) = outstanding q0 + 1) /\
  (forall h, conforming q (Publish h) = true ->
      Z.of_nat (avail_idx q) - Z.of_nat (used_idx q) < Z.of_nat n).
Proof.
  intros Hrun.
  destruct (run_capacity evs _ _ (capacity_init n) Hrun) as [Hcap Hnum].
  simpl in Hnum. unfold capacity_ok, outstanding in Hcap. rewrite Hnum in Hcap.
  split; [exact Hnum|]. split; [exact Hcap|]. split; [|split].
  - intros k. destruct (run_prefix evs k _ _ Hrun) as [qk Hk].
    exists qk. split; [exact Hk|].
    destruct (run_capacity _ _ _ (capacity_init n) Hk) as [Hcapk Hnumk].
    simpl in Hnumk. unfold capacity_ok, outstanding in Hcapk.
    rewrite Hnumk in Hcapk. auto.
  - apply publish_outstanding.
  - intros h Hc. simpl in Hc. apply andb_true_iff in Hc.
    destruct Hc as [Hc _]. apply bool_decide_eq_true in Hc.
    unfold outstanding in Hc. rewrite Hnum in Hc. exact Hc.
Qed.

Lemma ring_capacity_witness :
  exists q,
    run (init 2) sample_events = Some q /\
    0 <= Z.of_nat (avail_idx q) - Z.of_nat (used_idx q) <= 2.
Proof.
  eexists. split; [reflexivity|].
  apply (ring_capacity 2 sample_events _ eq_refl).
Defined.

(** ** Ring contents *)

(** Two counters less than [n] apart address different slots. *)
Lemma slots_distinct (i j n : nat) :
  (i < j)%nat -> (j - i < n)%nat -> (i mod n)%nat <> (j mod n)%nat.
Proof.
  intros Hlt Hn E.
  pose proof (Nat.div_mod_eq i n) as Hi.
  pose proof (Nat.div_mod_eq j n) as Hj.
  rewrite E in Hi.
  assert (Hq : (i / n < j / n)%nat) by nia.
  nia.
Qed.

Lemma ring_inv_init (n : nat) : ring_inv n [] (init n).
Proof.
  unfold ring_inv; simpl. rewrite !length_replicate.
  repeat split; try lia; intros i Hi; lia.
Qed.

Lemma ring_inv_publish (n : nat) (hist : list nat) (q : vring) (h : nat) :
  ring_inv n hist q -> conforming q (Publish h) = true ->
  ring_inv n (hist ++ [h]) (publish q h).
Proof.
  intros (Hn & Hla & Hlu & Hidx & Hcap & Hav & Hus) Hc.
  simpl in Hc. apply andb_true_iff in Hc. destruct Hc as [Hc _].
  apply bool_decide_eq_true in Hc. unfold outstanding in Hc.
  rewrite Hn in Hc.
  unfold ring_inv; simpl. rewrite length_insert, length_app, Hn. simpl.
  repeat split; try lia.
  - intros i Hi. destruct (decide (i = avail_idx q)) as [->|Hne].
    + rewrite list_lookup_insert_eq
        by (rewrite Hla; apply Nat.mod_upper_bound; lia).
      rewrite Hidx, lookup_app_r by lia.
      rewrite Nat.sub_diag. reflexivity.
    + rewrite list_lookup_insert_ne
        by (apply not_eq_sym, slots_distinct; lia).
      rewrite lookup_app_l by lia. apply Hav. lia.
  - intros i Hi Hi'. rewrite lookup_app_l by lia. apply Hus; lia.
Qed.

Lemma ring_inv_complete (n : nat) (hist : list nat) (q : vring) (bytes : Z) :
  ring_inv n hist q -> conforming q (Complete bytes) = true ->
  ring_inv n hist (complete q bytes).
Proof.
  intros (Hn & Hla & Hlu & Hidx & Hcap & Hav & Hus) Hc.
  simpl in Hc. apply bool_decide_eq_true in Hc.
  unfold ring_inv; simpl. rewrite length_insert, Hn.
  repeat split; try lia.
  - intros i Hi. apply Hav. lia.
  - intros i Hi Hi'. destruct (decide (i = used_idx q)) as [->|Hne].
    + rewrite list_lookup_insert_eq
        by (rewrite Hlu; apply Nat.mod_upper_bound; lia).
      simpl. rewrite (Hav (used_idx q)) by lia.
      destruct (hist !! used_idx q) as [h|] eqn:Hh; [reflexivity|].
      apply lookup_ge_None in Hh. lia.
    + rewrite list_lookup_insert_ne
        by (apply not_eq_sym, slots_distinct; lia).
      apply Hus; lia.
Qed.

Lemma run_ring_inv (evs : list event) : forall n hist q q',
  ring_inv n hist q -> run q evs = Some q' ->
  ring_inv n (hist ++ published evs) q'.
Proof.
  induction evs as [|e evs IH]; intros n hist q q' Hinv Hrun; simpl in Hrun.
  - injection Hrun as <-. simpl. rewrite app_nil_r. exact Hinv.
  - destruct (conforming q e) eqn:Hc; [|discriminate Hrun].
    destruct e as [h|bytes]; simpl.
    + replace (hist ++ h :: published evs) with ((hist ++ [h]) ++ published evs)
        by (rewrite <- app_assoc; reflexivity).
      eapply IH; [|exact Hrun]. apply ring_inv_publish; assumption.
    + eapply IH; [|exact Hrun]. apply ring_inv_complete; assumption.
Qed.

(** First in, first out: in a run that follows the protocol the entry the
    consumer takes next is the oldest head not yet completed, and the used
    ring holds the heads of the last completions in publication order. *)
Theorem ring_fifo (n : nat) (evs : list event) (q : vring) :
  run (init n) evs = Some q ->
  avail_idx q = length (published evs) /\
  (forall i, (used_idx q <= i < avail_idx q)%nat ->
     avail_ring q !! (i mod n)%nat = published evs !! i) /\
  (forall i, (i < used_idx q)%nat -> (used_idx q <= i + n)%nat ->
     u_id <$> used_ring q !! (i mod n)%nat = published evs !! i).
Proof.
  intros Hrun.
  destruct (run_ring_inv evs n [] _ _ (ring_inv_init n) Hrun)
    as (_ & _ & _ & Hidx & _ & Hav & Hus).
  simpl in *. auto.
Qed.

(** Without the capacity rule the ring loses entries: a third publish into
    a ring of two overwrites the oldest head before it was consumed. *)
Example publish_on_full_ring_overwrites :
  conforming (publish (publish (init 2) 0) 1) (Publish 1) = false /\
  avail_ring (publish (publish (init 2) 0) 1) !! 0%nat = Some 0%nat /\
  avail_ring (publish (publish (publish (init 2) 0) 1) 1) !! 0%nat = Some 1%nat /\
  outstanding (publish (publish (publish (init 2) 0) 1) 1) = 3.
Proof. repeat split. Qed.
End VringProps.

(** * Further properties of the headers *)

(** ** Enumerations: values and wire values *)

Section EnumRoundTrip.
Context {E : Type} `{EqDecision E}.

Lemma assoc_value_In (l : list (E * Z)) (e : E) (v : Z) :
  CEnum.assoc_value l e = Some v -> In (e, v) l.
Proof.
  induction l as [|[e' v'] l IH]; simpl; [discriminate|].
  destruct (decide (e' = e)) as [->|Hne].
  - intros [= ->]. left. reflexivity.
  - intros H. right. apply IH. exact H.
Qed.

Lemma assoc_value_is_Some (l : list (E * Z)) (e : E) :
  In e (map fst l) -> exists v, CEnum.assoc_value l e = Some v.
Proof.
  induction l as [|[e' v'] l IH]; simpl; [intros []|].
  destruct (decide (e' = e)) as [->|Hne]; [eauto|].
  intros [Heq | Hin]; [contradiction|]. apply IH. exact Hin.
Qed.

Lemma assoc_name_In (l : list (E * Z)) (v : Z) (e : E) :
  CEnum.assoc_name l v = Some e -> In (e, v) l.
Proof.
  induction l as [|[e' v'] l IH]; simpl; [discriminate|].
  destruct (Z.eqb_spec v' v) as [->|Hne].
  - intros [= ->]. left. reflexivity.
  - intros H. right. apply IH. exact H.
Qed.

Lemma assoc_name_None (l : list (E * Z)) (v : Z) :
  CEnum.assoc_name l v = None <-> ~ In v (map snd l).
Proof.
  induction l as [|[e' v'] l IH]; simpl; [tauto|].
  destruct (Z.eqb_spec v' v) as [->|Hne].
  - split; [discriminate|]. intros H. exfalso. apply H. left. reflexivity.
  - rewrite IH. tauto.
Qed.

Lemma number_names (d : @CEnum.decl E) : forall next,
  map fst (CEnum.number next d) = map fst d.
Proof.
  induction d as [|[e [v|]] rest IH]; intros next; simpl; [reflexivity| |];
    rewrite IH; reflexivity.
Qed.

Lemma pair_unique_by_value (l : list (E * Z)) (e1 e2 : E) (v : Z) :
  NoDup (map snd l) -> In (e1, v) l -> In (e2, v) l -> e1 = e2.
Proof.
  induction l as [|[e' v'] l IH]; simpl; [intros _ []|].
  intros Hnd H1 H2. apply NoDup_cons in Hnd. destruct Hnd as [Hfresh Hnd].
  assert (Hv : forall e, In (e, v') l -> False).
  { intros e Hin. apply Hfresh. apply list_elem_of_In.
    apply (in_map snd) in Hin. exact Hin. }
  destruct H1 as [H1 | H1], H2 as [H2 | H2].
  - congruence.
  - exfalso. apply (Hv e2). congruence.
  - exfalso. apply (Hv e1). congruence.
  - apply IH; assumption.
Qed.

Lemma pair_unique_by_name (l : list (E * Z)) (e : E) (v1 v2 : Z) :
  NoDup (map fst l) -> In (e, v1) l -> In (e, v2) l -> v1 = v2.
Proof.
  induction l as [|[e' v'] l IH]; simpl; [intros _ []|].
  intros Hnd H1 H2. apply NoDup_cons in Hnd. destruct Hnd as [Hfresh Hnd].
  assert (Hv : forall v, In (e', v) l -> False).
  { intros v Hin. apply Hfresh. apply list_elem_of_In.
    apply (in_map fst) in Hin. exact Hin. }
  destruct H1 as [H1 | H1], H2 as [H2 | H2].
  - congruence.
  - exfalso. apply (Hv v2). congruence.
  - exfalso. apply (Hv v1). congruence.
  - apply IH; assumption.
Qed.

(** An enumeration whose enumerators have pairwise different names and
    values is a bijection between its names and its values: every
    enumerator decodes back to itself, every decoded value encodes back to
    itself, and exactly the unassigned values decode to nothing. *)
Lemma enum_round_trip (d : @CEnum.decl E) :
  NoDup (enum_names d) -> NoDup (enum_codes d) ->
  (forall e, In e (enum_names d) -> CEnum.decode d (CEnum.value d e) = Some e) /\
  (forall v e, CEnum.decode d v = Some e -> CEnum.value d e = v) /\
  (forall v, CEnum.decode d v = None <-> ~ In v (enum_codes d)).
Proof.
  unfold enum_names, enum_codes, CEnum.decode, CEnum.value.
  intros Hnames Hcodes. split; [|split].
  - intros e He. rewrite <- (number_names d 0) in He.
    destruct (assoc_value_is_Some _ _ He) as [v Hv].
    fold (CEnum.values d) in Hv. rewrite Hv. simpl.
    destruct (CEnum.assoc_name (CEnum.values d) v) as [e'|] eqn:Hn.
    + f_equal. eapply pair_unique_by_value; [exact Hcodes| |].
      * apply assoc_name_In. exact Hn.
      * apply assoc_value_In. exact Hv.
    + exfalso. apply assoc_name_None in Hn. apply Hn.
      apply assoc_value_In in Hv. apply (in_map snd) in Hv. exact Hv.
  - intros v e Hd. apply assoc_name_In in Hd.
    assert (He : In e (map fst (CEnum.values d))).
    { apply (in_map fst) in Hd. exact Hd. }
    destruct (assoc_value_is_Some _ _ He) as [v' Hv]. rewrite Hv. simpl.
    eapply pair_unique_by_name; [|apply assoc_value_In; exact Hv|exact Hd].
    unfold CEnum.values. rewrite number_names. exact Hnames.
  - intros v. apply assoc_name_None.
Qed.
End EnumRoundTrip.

(** X3: block request types and completion status ([virtio_block.h]): the
    request types are IN=0, OUT=1, FLUSH=4, GET_ID=8, DISCARD=11,
    WRITE_ZEROES=13 and the status codes OK=0, IOERR=1, UNSUPP=2; every
    enumerator decodes back to itself, and a value decodes to nothing
    exactly when it is none of these. *)
Theorem block_enum_wire_values :
  CEnum.values L4virtio_block_operations_decl =
    [ (L4VIRTIO_BLOCK_T_IN, 0); (L4VIRTIO_BLOCK_T_OUT, 1);
      (L4VIRTIO_BLOCK_T_FLUSH, 4); (L4VIRTIO_BLOCK_T_GET_ID, 8);
      (L4VIRTIO_BLOCK_T_DISCARD, 11); (L4VIRTIO_BLOCK_T_WRITE_ZEROES, 13) ] /\
  CEnum.values L4virtio_block_status_decl =
    [ (L4VIRTIO_BLOCK_S_OK, 0); (L4VIRTIO_BLOCK_S_IOERR, 1);
      (L4VIRTIO_BLOCK_S_UNSUPP, 2) ] /\
  (forall op, CEnum.decode L4virtio_block_operations_decl
                (CEnum.value L4virtio_block_operations_decl op) = Some op) /\
  (forall v op, CEnum.decode L4virtio_block_operations_decl v = Some op ->
                CEnum.value L4virtio_block_operations_decl op = v) /\
  (forall v, CEnum.decode L4virtio_block_operations_decl v = None <->
             ~ In v [0; 1; 4; 8; 11; 13]) /\
  (forall st, CEnum.decode L4virtio_block_status_decl
                (CEnum.value L4virtio_block_status_decl st) = Some st) /\
  (forall v st, CEnum.decode L4virtio_block_status_decl v = Some st ->
                CEnum.value L4virtio_block_status_decl st = v) /\
  (forall v, CEnum.decode L4virtio_block_status_decl v = None <->
             ~ In v [0; 1; 2]).
Proof.
  assert (Hops : NoDup (enum_names L4virtio_block_operations_decl) /\
                 NoDup (enum_codes L4virtio_block_operations_decl)).
  { split; apply (bool_decide_unpack _); vm_compute; exact I. }
  assert (Hst : NoDup (enum_names L4virtio_block_status_decl) /\
                NoDup (enum_codes L4virtio_block_status_decl)).
  { split; apply (bool_decide_unpack _); vm_compute; exact I. }
  destruct (enum_round_trip _ (proj1 Hops) (proj2 Hops)) as (_ & Ho2 & Ho3).
  destruct (enum_round_trip _ (proj1 Hst) (proj2 Hst)) as (_ & Hs2 & Hs3).
  split; [reflexivity|]. split; [reflexivity|].
  split; [intros []; reflexivity|]. split; [exact Ho2|]. split; [exact Ho3|].
  split; [intros []; reflexivity|]. split; [exact Hs2|exact Hs3].
Qed.

Lemma block_enum_wire_values_witness :
  CEnum.decode L4virtio_block_operations_decl 11 = Some L4VIRTIO_BLOCK_T_DISCARD /\
  CEnum.value L4virtio_block_operations_decl L4VIRTIO_BLOCK_T_DISCARD = 11 /\
  CEnum.decode L4virtio_block_operations_decl 2 = None.
Proof.
  split; [reflexivity|]. split.
  - apply (proj1 (proj2 (proj2 (proj2 block_enum_wire_values))) 11
             L4VIRTIO_BLOCK_T_DISCARD).
    reflexivity.
  - apply (proj1 (proj2 (proj2 (proj2 (proj2 block_enum_wire_values)))) 2).
    simpl. intros H. repeat destruct H as [H | H]; try discriminate H. exact H.
Defined.

(** X4: the discard flags ([virtio_block.h]): UNMAP is bit 0 and RESERVED is
    every other bit of a 32-bit word.  They share no bit and cover the word,
    every 32-bit flags word splits into its UNMAP part and its reserved
    part, and a flags word has no reserved bit set exactly when it is 0 or
    UNMAP. *)
Theorem discard_flags_partition :
  discard_flag L4VIRTIO_BLOCK_DISCARD_F_UNMAP = 1 /\
  discard_flag L4VIRTIO_BLOCK_DISCARD_F_RESERVED = 0xFFFFFFFE /\
  Z.land (discard_flag L4VIRTIO_BLOCK_DISCARD_F_UNMAP)
         (discard_flag L4VIRTIO_BLOCK_DISCARD_F_RESERVED) = 0 /\
  Z.lor (discard_flag L4VIRTIO_BLOCK_DISCARD_F_UNMAP)
        (discard_flag L4VIRTIO_BLOCK_DISCARD_F_RESERVED) = 2 ^ 32 - 1 /\
  (forall w, is_u32 w ->
     Z.lor (Z.land w (discard_flag L4VIRTIO_BLOCK_DISCARD_F_UNMAP))
           (Z.land w (discard_flag L4VIRTIO_BLOCK_DISCARD_F_RESERVED)) = w) /\
  (forall w, is_u32 w ->
     (Z.land w (discard_flag L4VIRTIO_BLOCK_DISCARD_F_RESERVED) = 0 <->
      w = 0 \/ w = discard_flag L4VIRTIO_BLOCK_DISCARD_F_UNMAP)).
Proof.
  assert (Hsplit : forall w, is_u32 w ->
     Z.lor (Z.land w 1) (Z.land w 0xFFFFFFFE) = w).
  { intros w [Hlo Hhi]. rewrite <- Z.land_lor_distr_r.
    change (Z.lor 1 0xFFFFFFFE) with (Z.ones 32).
    rewrite Z.land_ones by lia. apply Z.mod_small. lia. }
  split; [reflexivity|]. split; [reflexivity|]. split; [reflexivity|].
  split; [reflexivity|]. split; [exact Hsplit|].
  intros w Hw. change (discard_flag L4VIRTIO_BLOCK_DISCARD_F_RESERVED) with 0xFFFFFFFE.
  change (discard_flag L4VIRTIO_BLOCK_DISCARD_F_UNMAP) with 1.
  split.
  - intros Hres. pose proof (Hsplit w Hw) as Hs.
    rewrite Hres, Z.lor_0_r in Hs.
    change 1 with (Z.ones 1) in Hs. rewrite Z.land_ones in Hs by lia.
    change (2 ^ 1) with 2 in Hs.
    pose proof (Z.mod_pos_bound w 2 ltac:(lia)). lia.
  - intros [-> | ->]; reflexivity.
Qed.

Lemma discard_flags_partition_witness :
  is_u32 1 /\
  (Z.land 1 (discard_flag L4VIRTIO_BLOCK_DISCARD_F_RESERVED) = 0 <->
   1 = 0 \/ 1 = discard_flag L4VIRTIO_BLOCK_DISCARD_F_UNMAP).
Proof.
  assert (H : is_u32 1) by (unfold is_u32; lia).
  split; [exact H|].
  apply (proj2 (proj2 (proj2 (proj2 (proj2 discard_flags_partition)))) 1 H).
Defined.

(** X8: input configuration selectors ([virtio_input.h]): UNSET=0, ID_NAME=1,
    ID_SERIAL=2, ID_DEVIDS=3, PROP_BITS=0x10, EV_BITS=0x11, ABS_INFO=0x12;
    every selector fits the one-byte [select] member, decodes back to
    itself, and a value decodes to nothing exactly when it is none of
    these. *)
Theorem input_select_wire_values :
  CEnum.values L4virtio_input_config_select_decl =
    [ (L4VIRTIO_INPUT_CFG_UNSET, 0); (L4VIRTIO_INPUT_CFG_ID_NAME, 1);
      (L4VIRTIO_INPUT_CFG_ID_SERIAL, 2); (L4VIRTIO_INPUT_CFG_ID_DEVIDS, 3);
      (L4VIRTIO_INPUT_CFG_PROP_BITS, 16); (L4VIRTIO_INPUT_CFG_EV_BITS, 17);
      (L4VIRTIO_INPUT_CFG_ABS_INFO, 18) ] /\
  (forall s, 0 <= CEnum.value L4virtio_input_config_select_decl s
             < 2 ^ (8 * Layout.sizeof Layout.l4_uint8_t)) /\
  (forall s, CEnum.decode L4virtio_input_config_select_decl
               (CEnum.value L4virtio_input_config_select_decl s) = Some s) /\
  (forall v s, CEnum.decode L4virtio_input_config_select_decl v = Some s ->
               CEnum.value L4virtio_input_config_select_decl s = v) /\
  (forall v, CEnum.decode L4virtio_input_config_select_decl v = None <->
             ~ In v [0; 1; 2; 3; 16; 17; 18]).
Proof.
  assert (Hnd : NoDup (enum_names L4virtio_input_config_select_decl) /\
                NoDup (enum_codes L4virtio_input_config_select_decl)).
  { split; apply (bool_decide_unpack _); vm_compute; exact I. }
  destruct (enum_round_trip _ (proj1 Hnd) (proj2 Hnd)) as (_ & H2 & H3).
  split; [reflexivity|].
  split; [intros []; vm_compute; split; congruence|].
  split; [intros []; reflexivity|]. split; [exact H2|exact H3].
Qed.

(** X6: network feature bits ([virtio_net.h]): the twenty bits have the values
    0, 1, 3, 5, 7..19, 21, 22, 23 (2, 4, 6 and 20 are not assigned); each is
    a bit position inside the first 32-bit word of the 256-bit feature
    bitmaps of the config header, no two features share a position, and a
    position decodes to nothing exactly when it is unassigned. *)
Theorem net_feature_bit_positions :
  enum_codes L4virtio_net_feature_bits_decl =
    [0; 1; 3; 5; 7; 8; 9; 10; 11; 12; 13; 14; 15; 16; 17; 18; 19; 21; 22; 23] /\
  (forall f, 0 <= CEnum.value L4virtio_net_feature_bits_decl f
             < 8 * Layout.sizeof Layout.l4_uint32_t) /\
  (forall f g, CEnum.value L4virtio_net_feature_bits_decl f
               = CEnum.value L4virtio_net_feature_bits_decl g -> f = g) /\
  (forall f, CEnum.decode L4virtio_net_feature_bits_decl
               (CEnum.value L4virtio_net_feature_bits_decl f) = Some f) /\
  (forall v f, CEnum.decode L4virtio_net_feature_bits_decl v = Some f ->
               CEnum.value L4virtio_net_feature_bits_decl f = v) /\
  (forall v, CEnum.decode L4virtio_net_feature_bits_decl v = None <->
             ~ In v [0; 1; 3; 5; 7; 8; 9; 10; 11; 12; 13; 14; 15; 16; 17; 18;
                     19; 21; 22; 23]) /\
  CEnum.decode L4virtio_net_feature_bits_decl 2 = None /\
  CEnum.decode L4virtio_net_feature_bits_decl 4 = None /\
  CEnum.decode L4virtio_net_feature_bits_decl 6 = None /\
  CEnum.decode L4virtio_net_feature_bits_decl 20 = None.
Proof.
  assert (Hnd : NoDup (enum_names L4virtio_net_feature_bits_decl) /\
                NoDup (enum_codes L4virtio_net_feature_bits_decl)).
  { split; apply (bool_decide_unpack _); vm_compute; exact I. }
  destruct (enum_round_trip _ (proj1 Hnd) (proj2 Hnd)) as (_ & H2 & H3).
  assert (Hrt : forall f, CEnum.decode L4virtio_net_feature_bits_decl
               (CEnum.value L4virtio_net_feature_bits_decl f) = Some f)
    by (intros []; reflexivity).
  split; [reflexivity|].
  split; [intros []; vm_compute; split; congruence|].
  split.
  { intros f g Hfg. pose proof (Hrt f) as Hf. rewrite Hfg, Hrt in Hf.
    congruence. }
  split; [exact Hrt|]. split; [exact H2|]. split; [exact H3|].
  repeat split.
Qed.

(** ** Layout of the device-class structures *)

Ltac all_abis a H :=
  destruct a as [a8 a16 a32 a64];
  destruct H as (H8 & H16 & H32 & H64); simpl in H8, H16, H32, H64;
  subst a8;
  destruct H16 as [-> | ->];
  destruct H32 as [-> | [-> | ->]];
  destruct H64 as [-> | [-> | [-> | ->]]].

Lemma natural_abi_ok : Layout.abi_ok Layout.natural_abi.
Proof. unfold Layout.abi_ok; simpl. repeat split; auto. Qed.

Lemma ia32_abi_ok : Layout.abi_ok ia32_abi.
Proof. unfold Layout.abi_ok; simpl. repeat split; auto. Qed.

(** The nested layout agrees with the flat one on flat structures. *)
Lemma flat_struct_end (a : Layout.abi) (s : Layout.struct_decl) : forall off,
  fold_left (fun _ m => Layout.m_offset m + Layout.m_size m)
            (Layout.place a off s) off
  = Aggregate.struct_end a off
      (Aggregate.mk_fields (map (fun f => (fst f, Aggregate.base (snd f))) s)).
Proof.
  induction s as [|[n t] rest IH]; intros off; simpl; [reflexivity|].
  apply IH.
Qed.

Lemma flat_struct_align (a : Layout.abi) (s : Layout.struct_decl) :
  Layout.struct_align a s
  = Aggregate.fields_align a
      (Aggregate.mk_fields (map (fun f => (fst f, Aggregate.base (snd f))) s)).
Proof.
  unfold Layout.struct_align.
  induction s as [|[n t] rest IH]; simpl; [reflexivity|].
  rewrite IH. reflexivity.
Qed.

Lemma flat_struct_leaves (a : Layout.abi) (s : Layout.struct_decl) : forall off,
  Aggregate.struct_leaves a "" 0 off
    (Aggregate.mk_fields (map (fun f => (fst f, Aggregate.base (snd f))) s))
  = Layout.place a off s.
Proof.
  induction s as [|[n t] rest IH]; intros off; simpl; [reflexivity|].
  rewrite IH. reflexivity.
Qed.

Lemma flat_struct_agrees (a : Layout.abi) (s : Layout.struct_decl) :
  Aggregate.extents a (Aggregate.of_decl s) = Layout.extents a s /\
  Aggregate.sizeof a (Aggregate.of_decl s) = Layout.struct_size a s.
Proof.
  split.
  - unfold Aggregate.extents, Layout.extents, Layout.members, Aggregate.of_decl.
    simpl. rewrite flat_struct_leaves. reflexivity.
  - unfold Layout.struct_size, Layout.end_of, Layout.members, Aggregate.of_decl.
    simpl. rewrite flat_struct_end, flat_struct_align. reflexivity.
Qed.

(** X1: the block device configuration ([virtio_block.h]): on every admissible
    ABI the members, the nested geometry and topology ones included, lie at
    the same offsets, from capacity at 0 to unused1 at 57, without any
    padding between them and ending at byte 60.  The size of the structure
    is 60 rounded up to the alignment of its 64-bit member: 64 bytes where
    64-bit integers are 8-aligned, 60 bytes otherwise. *)
Theorem block_config_layout (a : Layout.abi) :
  Layout.abi_ok a ->
  Aggregate.extents a l4virtio_block_config_t_decl =
    [ ("capacity"%string, 0, 8); ("size_max"%string, 8, 4);
      ("seg_max"%string, 12, 4); ("geometry.cylinders"%string, 16, 2);
      ("geometry.heads"%string, 18, 1); ("geometry.sectors"%string, 19, 1);
      ("blk_size"%string, 20, 4);
      ("topology.physical_block_exp"%string, 24, 1);
      ("topology.alignment_offset"%string, 25, 1);
      ("topology.min_io_size"%string, 26, 2);
      ("topology.opt_io_size"%string, 28, 4);
      ("writeback"%string, 32, 1); ("unused0"%string, 33, 1);
      ("num_queues"%string, 34, 2); ("max_discard_sectors"%string, 36, 4);
      ("max_discard_seg"%string, 40, 4);
      ("discard_sector_alignment"%string, 44, 4);
      ("max_write_zeroes_sectors"%string, 48, 4);
      ("max_write_zeroes_seg"%string, 52, 4);
      ("write_zeroes_may_unmap"%string, 56, 1); ("unused1"%string, 57, 3) ] /\
  Aggregate.sizeof a l4virtio_block_config_geometry_t_decl = 4 /\
  Aggregate.sizeof a l4virtio_block_config_topology_t_decl = 8 /\
  Aggregate.sizeof a l4virtio_block_config_t_decl =
    (if Layout.alignof_u64 a =? 8 then 64 else 60).
Proof.
  intros H. all_abis a H; vm_compute; repeat split; reflexivity.
Qed.

Lemma block_config_layout_witness :
  Aggregate.sizeof Layout.natural_abi l4virtio_block_config_t_decl = 64 /\
  Aggregate.sizeof ia32_abi l4virtio_block_config_t_decl = 60.
Proof.
  split.
  - apply (block_config_layout Layout.natural_abi natural_abi_ok).
  - apply (block_config_layout ia32_abi ia32_abi_ok).
Defined.

(** X2: the block request header and the discard/write-zeroes segment
    ([virtio_block.h]) are 16 bytes each on every admissible ABI: type at 0,
    ioprio at 4, sector at 8; and sector at 0, num_sectors at 8, flags at
    12. *)
Theorem block_request_layout (a : Layout.abi) :
  Layout.abi_ok a ->
  Aggregate.extents a l4virtio_block_header_t_decl =
    [ ("type"%string, 0, 4); ("ioprio"%string, 4, 4); ("sector"%string, 8, 8) ] /\
  Aggregate.sizeof a l4virtio_block_header_t_decl = 16 /\
  Aggregate.extents a l4virtio_block_discard_t_decl =
    [ ("sector"%string, 0, 8); ("num_sectors"%string, 8, 4);
      ("flags"%string, 12, 4) ] /\
  Aggregate.sizeof a l4virtio_block_discard_t_decl = 16.
Proof.
  intros H. all_abis a H; vm_compute; repeat split; reflexivity.
Qed.

Lemma block_request_layout_witness :
  Aggregate.sizeof Layout.natural_abi l4virtio_block_header_t_decl = 16 /\
  Aggregate.sizeof ia32_abi l4virtio_block_discard_t_decl = 16.
Proof.
  split.
  - apply (block_request_layout Layout.natural_abi natural_abi_ok).
  - apply (block_request_layout ia32_abi ia32_abi_ok).
Defined.

(** X5: the network structures ([virtio_net.h]): the request header is 12 bytes
    on every admissible ABI.  The device configuration has its members at
    the same offsets on every admissible ABI (mac 0, status 6,
    max_virtqueue_pairs 8, mtu 10, speed 12, duplex 16) and ends at byte 17;
    its size is 17 rounded up to its alignment, which is 20 bytes where
    32-bit integers are 4-aligned. *)
Theorem net_layout (a : Layout.abi) :
  Layout.abi_ok a ->
  Aggregate.extents a l4virtio_net_header_t_decl =
    [ ("flags"%string, 0, 1); ("gso_type"%string, 1, 1);
      ("hdr_len"%string, 2, 2); ("gso_size"%string, 4, 2);
      ("csum_start"%string, 6, 2); ("csum_offset"%string, 8, 2);
      ("num_buffers"%string, 10, 2) ] /\
  Aggregate.sizeof a l4virtio_net_header_t_decl = 12 /\
  Aggregate.extents a l4virtio_net_config_t_decl =
    [ ("mac"%string, 0, 6); ("status"%string, 6, 2);
      ("max_virtqueue_pairs"%string, 8, 2); ("mtu"%string, 10, 2);
      ("speed"%string, 12, 4); ("duplex"%string, 16, 1) ] /\
  Aggregate.sizeof a l4virtio_net_config_t_decl =
    Layout.align_up 17 (Z.max (Layout.alignof_u16 a) (Layout.alignof_u32 a)) /\
  (Layout.alignof_u32 a = 4 -> Aggregate.sizeof a l4virtio_net_config_t_decl = 20).
Proof.
  intros H. all_abis a H; vm_compute; repeat split; try reflexivity;
    intros; congruence.
Qed.

Lemma net_layout_witness :
  Aggregate.sizeof Layout.natural_abi l4virtio_net_header_t_decl = 12 /\
  Aggregate.sizeof Layout.natural_abi l4virtio_net_config_t_decl = 20.
Proof.
  split.
  - apply (net_layout Layout.natural_abi natural_abi_ok).
  - apply (proj2 (proj2 (proj2 (proj2
             (net_layout Layout.natural_abi natural_abi_ok))))).
    reflexivity.
Defined.

(** X7: the input structures ([virtio_input.h]): on every admissible ABI the
    configuration is 136 bytes, an 8-byte head (select 0, subsel 1, size 2,
    reserved 3..7) followed by the 128-byte union [u]; all views of the
    union start at offset 8, the string and the bitmap fill it, the axis
    view covers 20 bytes of it and the device-id view 8; the one-byte size
    member can express every payload length up to the whole union.  An
    event is 8 bytes: type 0, code 2, value 4. *)
Theorem input_layout (a : Layout.abi) :
  Layout.abi_ok a ->
  Aggregate.extents a l4virtio_input_config_t_decl =
    [ ("select"%string, 0, 1); ("subsel"%string, 1, 1); ("size"%string, 2, 1);
      ("reserved"%string, 3, 5);
      ("u.string"%string, 8, 128); ("u.bitmap"%string, 8, 128);
      ("u.abs.min"%string, 8, 4); ("u.abs.max"%string, 12, 4);
      ("u.abs.fuzz"%string, 16, 4); ("u.abs.flat"%string, 20, 4);
      ("u.abs.res"%string, 24, 4);
      ("u.ids.bustype"%string, 8, 2); ("u.ids.vendor"%string, 10, 2);
      ("u.ids.product"%string, 12, 2); ("u.ids.version"%string, 14, 2) ] /\
  Aggregate.sizeof a l4virtio_input_config_u_decl = 128 /\
  Aggregate.sizeof a l4virtio_input_config_u_decl
    < 2 ^ (8 * Layout.sizeof Layout.l4_uint8_t) /\
  Aggregate.sizeof a l4virtio_input_absinfo_t_decl = 20 /\
  Aggregate.sizeof a l4virtio_input_devids_t_decl = 8 /\
  Aggregate.sizeof a l4virtio_input_config_t_decl = 136 /\
  Aggregate.extents a l4virtio_input_event_t_decl =
    [ ("type"%string, 0, 2); ("code"%string, 2, 2); ("value"%string, 4, 4) ] /\
  Aggregate.sizeof a l4virtio_input_event_t_decl = 8.
Proof.
  intros H. all_abis a H; vm_compute; repeat split; reflexivity.
Qed.

Lemma input_layout_witness :
  Aggregate.sizeof Layout.natural_abi l4virtio_input_config_t_decl = 136 /\
  Aggregate.sizeof ia32_abi l4virtio_input_event_t_decl = 8.
Proof.
  split.
  - apply (input_layout Layout.natural_abi natural_abi_ok).
  - apply (input_layout ia32_abi ia32_abi_ok).
Defined.

(** ** The inline accessors at the edges of the address space *)

Lemma l4_addr_add_range (addr_bits a b : Z) :
  0 <= addr_bits -> 0 <= l4_addr_add addr_bits a b < 2 ^ addr_bits.
Proof.
  intros Hw. unfold l4_addr_add. apply Z.mod_pos_bound.
  apply Z.pow_pos_nonneg; lia.
Qed.

Lemma l4_addr_add_wraps (addr_bits a b : Z) :
  0 <= a < 2 ^ addr_bits -> 0 <= b < 2 ^ addr_bits ->
  2 ^ addr_bits <= a + b ->
  l4_addr_add addr_bits a b = a + b - 2 ^ addr_bits /\
  l4_addr_add addr_bits a b < a.
Proof.
  intros Ha Hb Hov. unfold l4_addr_add.
  assert (E : (a + b) mod 2 ^ addr_bits = a + b - 2 ^ addr_bits).
  { symmetry. apply (Z.mod_unique_pos _ _ 1); lia. }
  rewrite E. lia.
Qed.

(** X9: [l4virtio_config_queues] and [l4virtio_device_config] on a target whose
    addresses are wider than the 32-bit offsets: for a well-formed header
    that lies at least 4 GiB below the top of the address space the sum
    never wraps, so each pointer is exactly the header address plus the
    stored offset, lies at or above the header and less than 4 GiB beyond
    it, and the two pointers differ by the difference of the offsets. *)
Theorem accessors_never_wrap_below_top
    (addr_bits base : Z) (cfg : l4virtio_config_hdr_t) :
  hdr_wf cfg -> 0 <= base -> base + 2 ^ 32 <= 2 ^ addr_bits ->
  l4virtio_config_queues addr_bits base cfg = base + queues_offset cfg /\
  l4virtio_device_config addr_bits base cfg = base + dev_cfg_offset cfg /\
  base <= l4virtio_config_queues addr_bits base cfg < base + 2 ^ 32 /\
  base <= l4virtio_device_config addr_bits base cfg < base + 2 ^ 32 /\
  l4virtio_device_config addr_bits base cfg
    - l4virtio_config_queues addr_bits base cfg
  = dev_cfg_offset cfg - queues_offset cfg.
Proof.
  intros Hwf Hb Htop.
  destruct Hwf as (_ & _ & _ & _ & _ & Hq & Hd & _).
  unfold is_u32 in Hq, Hd.
  unfold l4virtio_config_queues, l4virtio_device_config.
  rewrite !l4_addr_add_exact by lia. lia.
Qed.

Lemma accessors_never_wrap_below_top_witness :
  l4virtio_config_queues 64 0x10000 (sample_hdr 0 0x2000 0x3000) = 0x12000 /\
  l4virtio_device_config 64 0x10000 (sample_hdr 0 0x2000 0x3000) = 0x13000.
Proof.
  assert (Hwf : hdr_wf (sample_hdr 0 0x2000 0x3000)).
  { unfold hdr_wf, is_u32; simpl.
    repeat split; try lia; try reflexivity;
      repeat constructor; unfold is_u32; lia. }
  assert (Hb : 0 <= 0x10000) by lia.
  assert (Htop : 0x10000 + 2 ^ 32 <= 2 ^ 64) by lia.
  destruct (accessors_never_wrap_below_top 64 0x10000
              (sample_hdr 0 0x2000 0x3000) Hwf Hb Htop) as (Hq & Hd & _).
  split; [exact Hq|exact Hd].
Defined.

(** X10: the same accessors at the top of the address space: the result is
    always an address of the target, and when header address plus offset
    reaches past the last address the sum wraps around, so the pointer is
    the sum minus 2^addr_bits and lies below the header. *)
Theorem accessors_wrap_at_top
    (addr_bits base : Z) (cfg : l4virtio_config_hdr_t) :
  0 <= addr_bits -> 0 <= base < 2 ^ addr_bits ->
  (0 <= l4virtio_config_queues addr_bits base cfg < 2 ^ addr_bits) /\
  (0 <= l4virtio_device_config addr_bits base cfg < 2 ^ addr_bits) /\
  (0 <= queues_offset cfg < 2 ^ addr_bits ->
   2 ^ addr_bits <= base + queues_offset cfg ->
   l4virtio_config_queues addr_bits base cfg
     = base + queues_offset cfg - 2 ^ addr_bits /\
   l4virtio_config_queues addr_bits base cfg < base) /\
  (0 <= dev_cfg_offset cfg < 2 ^ addr_bits ->
   2 ^ addr_bits <= base + dev_cfg_offset cfg ->
   l4virtio_device_config addr_bits base cfg
     = base + dev_cfg_offset cfg - 2 ^ addr_bits /\
   l4virtio_device_config addr_bits base cfg < base).
Proof.
  intros Hw Hb. unfold l4virtio_config_queues, l4virtio_device_config.
  split; [apply l4_addr_add_range; exact Hw|].
  split; [apply l4_addr_add_range; exact Hw|].
  split; intros Ho Hov; apply l4_addr_add_wraps; assumption.
Qed.

Lemma accessors_wrap_at_top_witness :
  l4virtio_config_queues 32 0xFFFFF000 (sample_hdr 0 0x2000 0x3000) = 0x1000 /\
  l4virtio_config_queues 32 0xFFFFF000 (sample_hdr 0 0x2000 0x3000) < 0xFFFFF000.
Proof.
  assert (Hw : 0 <= 32) by lia.
  assert (Hb : 0 <= 0xFFFFF000 < 2 ^ 32) by lia.
  destruct (accessors_wrap_at_top 32 0xFFFFF000 (sample_hdr 0 0x2000 0x3000) Hw Hb)
    as (_ & _ & Hq & _).
  apply Hq; simpl; lia.
Defined.

(** ** Flag words *)

Lemma or_bits_test {E : Type} `{EqDecision E} (bit : E -> Z) :
  (forall f g, f <> g -> Z.land (bit f) (bit g) = 0) ->
  forall (flags : list E) (f : E),
    Z.land (or_bits bit flags) (bit f)
    = if bool_decide (f ∈ flags) then bit f else 0.
Proof.
  intros Hdisj flags f. induction flags as [|g flags IH]; simpl.
  - reflexivity.
  - rewrite Z.land_lor_distr_l, IH.
    destruct (decide (g = f)) as [->|Hne].
    + rewrite Z.land_diag.
      rewrite (bool_decide_eq_true_2 (f ∈ f :: flags)) by (left).
      destruct (bool_decide (f ∈ flags)); [apply Z.lor_diag|apply Z.lor_0_r].
    + rewrite (Hdisj g f Hne), Z.lor_0_l.
      destruct (decide (f ∈ flags)) as [Hin|Hnin].
      * rewrite (bool_decide_eq_true_2 (f ∈ flags)) by exact Hin.
        rewrite (bool_decide_eq_true_2 (f ∈ g :: flags)) by (right; exact Hin).
        reflexivity.
      * rewrite (bool_decide_eq_false_2 (f ∈ flags)) by exact Hnin.
        rewrite (bool_decide_eq_false_2 (f ∈ g :: flags)); [reflexivity|].
        intros Hin. apply elem_of_cons in Hin.
        destruct Hin; [congruence|contradiction].
Qed.

(** X11: the device status bits and the IRQ status bits ([virtio.h]) can be
    combined and tested independently: in the word that has any set of
    flags or-ed together, masking with one flag gives that flag when it is
    in the set and 0 when it is not; two words built from flag sets are
    equal only if they test the same for every flag. *)
Theorem status_flags_independent :
  (forall (flags : list L4virtio_device_status) (f : L4virtio_device_status),
     Z.land (or_bits status_bit flags) (status_bit f)
     = if bool_decide (f ∈ flags) then status_bit f else 0) /\
  (forall (flags : list L4_virtio_irq_status) (f : L4_virtio_irq_status),
     Z.land (or_bits irq_status_bit flags) (irq_status_bit f)
     = if bool_decide (f ∈ flags) then irq_status_bit f else 0) /\
  (forall f : L4virtio_device_status, status_bit f <> 0) /\
  (forall f : L4_virtio_irq_status, irq_status_bit f <> 0) /\
  (forall (fs gs : list L4virtio_device_status),
     or_bits status_bit fs = or_bits status_bit gs ->
     forall f, f ∈ fs <-> f ∈ gs).
Proof.
  assert (Hs : forall (flags : list L4virtio_device_status) f,
     Z.land (or_bits status_bit flags) (status_bit f)
     = if bool_decide (f ∈ flags) then status_bit f else 0).
  { apply or_bits_test. intros f g Hne. destruct f, g; try reflexivity; congruence. }
  assert (Hnz : forall f : L4virtio_device_status, status_bit f <> 0)
    by (intros []; discriminate).
  split; [exact Hs|]. split.
  { apply or_bits_test. intros f g Hne. destruct f, g; try reflexivity; congruence. }
  split; [exact Hnz|]. split; [intros []; discriminate|].
  intros fs gs Heq f. pose proof (Hs fs f) as H1. pose proof (Hs gs f) as H2.
  rewrite Heq, H2 in H1. specialize (Hnz f).
  destruct (decide (f ∈ fs)) as [Hf|Hf], (decide (f ∈ gs)) as [Hg|Hg];
    try tauto.
  - rewrite (bool_decide_eq_true_2 (f ∈ fs)) in H1 by exact Hf.
    rewrite (bool_decide_eq_false_2 (f ∈ gs)) in H1 by exact Hg. congruence.
  - rewrite (bool_decide_eq_false_2 (f ∈ fs)) in H1 by exact Hf.
    rewrite (bool_decide_eq_true_2 (f ∈ gs)) in H1 by exact Hg. congruence.
Qed.

Lemma status_flags_independent_witness :
  or_bits status_bit [L4VIRTIO_STATUS_ACKNOWLEDGE; L4VIRTIO_STATUS_DRIVER] = 3 /\
  Z.land 3 (status_bit L4VIRTIO_STATUS_DRIVER) = 2 /\
  Z.land 3 (status_bit L4VIRTIO_STATUS_FAILED) = 0.
Proof.
  split; [reflexivity|]. split.
  - apply (proj1 status_flags_independent
             [L4VIRTIO_STATUS_ACKNOWLEDGE; L4VIRTIO_STATUS_DRIVER]
             L4VIRTIO_STATUS_DRIVER).
  - apply (proj1 status_flags_independent
             [L4VIRTIO_STATUS_ACKNOWLEDGE; L4VIRTIO_STATUS_DRIVER]
             L4VIRTIO_STATUS_FAILED).
Defined.
